(** * GestureRecognition: the camera-capture widget of Nrityalya

    A shallow embedding of [src/components/UploadImage.tsx].  The component
    is event driven: user clicks, timer callbacks and settled promises each
    run one handler to completion on the JavaScript event loop.  The world
    below holds the component's hook state, the two refs, the browser's
    timer table, the operations that are still awaited, and the trace of
    the I/O the component has performed.

    - An [async] function is cut at each [await] (and at the toBlob
      callback): the code up to it is one function of the world, the code
      after it another, resumed by the event that settles the promise.
    - A closure handed to the browser is a constructor holding what it
      captured: [captureAndSendFrame] captures [mode], the setTimeout arrow
      function captures [stream]; the refs are shared and read when the
      closure runs.
    - One step of the loop is a handler followed by React's commit, which
      re-runs the interval effect when [isCameraOn] or [mode] changed.
    - What the browser decides (promises settling, toBlob's result, the
      JSON a response holds, which timer fires, when React attaches refs)
      arrives as the event's payload. *)

From Stdlib Require Import ZArith String List Floats.SpecFloat.
From stdpp Require Import base option list strings gmap fin_maps.

Set Warnings "-register-all".

Local Open Scope string_scope.
Local Open Scope list_scope.

(** ** JavaScript values, as [response.json()] can resolve to them *)

Inductive value : Type :=
  | VUndefined
  | VNull
  | VBool (b : bool)
  | VNumber (f : spec_float)
  | VString (s : string)
  | VArray (items : list value)
  | VObject (props : list (string * value)).

(** ToBoolean: what [if (x)] and [x || y] test. *)
Definition truthy (v : value) : bool :=
  match v with
  | VUndefined | VNull => false
  | VBool b => b
  | VNumber (S754_zero _) | VNumber S754_nan => false
  | VNumber _ => true
  | VString s => negb (String.eqb s "")
  | VArray _ | VObject _ => true
  end.

(** [x || y] *)
Definition js_or (x y : value) : value := if truthy x then x else y.

Inductive Error : Type :=
  | BrowserError (message : string)      (* thrown or rejected by a browser API *)
  | TypeErrorNullAccess (prop : string). (* reading a property of null *)

(** How an awaited promise settles. *)
Inductive Settled (A : Type) : Type :=
  | Resolved (a : A)
  | Rejected (e : Error).
Arguments Resolved {A} a.
Arguments Rejected {A} e.

Fixpoint own_prop (props : list (string * value)) (k : string) : value :=
  match props with
  | [] => VUndefined
  | (k', v) :: rest => if String.eqb k' k then v else own_prop rest k
  end.

(** [data.k] for the two property names the component reads: null and
    undefined throw, an object gives its own property, every other value
    gives undefined. *)
Definition get_prop (data : value) (k : string) : Error + value :=
  match data with
  | VUndefined | VNull => inl (TypeErrorNullAccess k)
  | VObject props => inr (own_prop props k)
  | _ => inr VUndefined
  end.

(** ** DOM objects behind the refs *)

Definition TrackId := nat.
Definition MediaStream := list TrackId.   (* stream.getTracks() *)

Record Video := { srcObject : option MediaStream }.

Record Canvas := {
  canvas_width : Z;
  canvas_height : Z;
  canvas_2d : bool      (* whether getContext("2d") gives a context *)
}.

Definition Blob := list Byte.byte.

(** ** Requests *)

Record FormEntry := { entry_name : string; entry_blob : Blob; entry_filename : string }.
Definition FormData := list FormEntry.

(** The values of the keys of the [init] object handed to [fetch]. *)
Inductive InitValue : Type :=
  | IString (s : string)
  | IForm (fd : FormData).

Record Request := {
  req_url : string;
  req_init : list (string * InitValue)
}.

Record Response := { status : Z }.

(** ** I/O performed by the component, in the order it happens *)

Inductive Level := Log | Warn | Err.

Inductive Effect : Type :=
  | GetUserMedia (video : bool)
  | DrawImage (dx dy dw dh : Z)
  | ToBlob (mime : string)
  | Fetch (r : Request)
  | ReadJson
  | Console (lvl : Level) (msg : string) (arg : option Error).

(** ** Component state *)

Inductive Mode := Hand | Body.

Global Instance Mode_eq_dec : EqDecision Mode.
Proof. solve_decision. Defined.

(** Closures handed to the browser's timers. *)
Inductive Callback : Type :=
  | CaptureAndSendFrame (m : Mode)   (* captureAndSendFrame of a render whose mode is m *)
  | AttachStream (s : MediaStream).  (* the arrow function of startCamera *)

Record Timer := {
  timer_repeat : bool;   (* setInterval rather than setTimeout *)
  timer_delay : Z;
  timer_cb : Callback
}.

(** Suspended asynchronous code, waiting for the browser. *)
Inductive Pending : Type :=
  | AwaitUserMedia          (* startCamera at [await getUserMedia] *)
  | AwaitBlob (m : Mode)    (* the toBlob callback, not yet called *)
  | AwaitFetch              (* at [await fetch] *)
  | AwaitJson.              (* at [await response.json()] *)

Record World := {
  prediction : value;
  isCameraOn : bool;
  mode : Mode;
  videoRef : option Video;
  canvasRef : option Canvas;
  mounted : bool;
  effDeps : bool * Mode;          (* [isCameraOn, mode] of the last effect run *)
  effInterval : option nat;       (* the [interval] variable of that run *)
  timers : gmap nat Timer;
  nextTimer : nat;
  tasks : gmap nat Pending;
  nextTask : nat;
  stopped : gset TrackId;         (* tracks on which stop() was called *)
  trace : list Effect
}.

(** *** Field updates *)

Definition set_prediction (p : value) (w : World) : World :=
  {| prediction := p; isCameraOn := isCameraOn w; mode := mode w;
     videoRef := videoRef w; canvasRef := canvasRef w; mounted := mounted w;
     effDeps := effDeps w; effInterval := effInterval w;
     timers := timers w; nextTimer := nextTimer w;
     tasks := tasks w; nextTask := nextTask w;
     stopped := stopped w; trace := trace w |}.

Definition set_isCameraOn (b : bool) (w : World) : World :=
  {| prediction := prediction w; isCameraOn := b; mode := mode w;
     videoRef := videoRef w; canvasRef := canvasRef w; mounted := mounted w;
     effDeps := effDeps w; effInterval := effInterval w;
     timers := timers w; nextTimer := nextTimer w;
     tasks := tasks w; nextTask := nextTask w;
     stopped := stopped w; trace := trace w |}.

Definition set_mode (m : Mode) (w : World) : World :=
  {| prediction := prediction w; isCameraOn := isCameraOn w; mode := m;
     videoRef := videoRef w; canvasRef := canvasRef w; mounted := mounted w;
     effDeps := effDeps w; effInterval := effInterval w;
     timers := timers w; nextTimer := nextTimer w;
     tasks := tasks w; nextTask := nextTask w;
     stopped := stopped w; trace := trace w |}.

Definition set_refs (v : option Video) (c : option Canvas) (w : World) : World :=
  {| prediction := prediction w; isCameraOn := isCameraOn w; mode := mode w;
     videoRef := v; canvasRef := c; mounted := mounted w;
     effDeps := effDeps w; effInterval := effInterval w;
     timers := timers w; nextTimer := nextTimer w;
     tasks := tasks w; nextTask := nextTask w;
     stopped := stopped w; trace := trace w |}.

Definition set_mounted (b : bool) (w : World) : World :=
  {| prediction := prediction w; isCameraOn := isCameraOn w; mode := mode w;
     videoRef := videoRef w; canvasRef := canvasRef w; mounted := b;
     effDeps := effDeps w; effInterval := effInterval w;
     timers := timers w; nextTimer := nextTimer w;
     tasks := tasks w; nextTask := nextTask w;
     stopped := stopped w; trace := trace w |}.

Definition set_effect (deps : bool * Mode) (interval : option nat) (w : World) : World :=
  {| prediction := prediction w; isCameraOn := isCameraOn w; mode := mode w;
     videoRef := videoRef w; canvasRef := canvasRef w; mounted := mounted w;
     effDeps := deps; effInterval := interval;
     timers := timers w; nextTimer := nextTimer w;
     tasks := tasks w; nextTask := nextTask w;
     stopped := stopped w; trace := trace w |}.

Definition set_timers (ts : gmap nat Timer) (next : nat) (w : World) : World :=
  {| prediction := prediction w; isCameraOn := isCameraOn w; mode := mode w;
     videoRef := videoRef w; canvasRef := canvasRef w; mounted := mounted w;
     effDeps := effDeps w; effInterval := effInterval w;
     timers := ts; nextTimer := next;
     tasks := tasks w; nextTask := nextTask w;
     stopped := stopped w; trace := trace w |}.

Definition set_tasks (ps : gmap nat Pending) (next : nat) (w : World) : World :=
  {| prediction := prediction w; isCameraOn := isCameraOn w; mode := mode w;
     videoRef := videoRef w; canvasRef := canvasRef w; mounted := mounted w;
     effDeps := effDeps w; effInterval := effInterval w;
     timers := timers w; nextTimer := nextTimer w;
     tasks := ps; nextTask := next;
     stopped := stopped w; trace := trace w |}.

Definition set_stopped (s : gset TrackId) (w : World) : World :=
  {| prediction := prediction w; isCameraOn := isCameraOn w; mode := mode w;
     videoRef := videoRef w; canvasRef := canvasRef w; mounted := mounted w;
     effDeps := effDeps w; effInterval := effInterval w;
     timers := timers w; nextTimer := nextTimer w;
     tasks := tasks w; nextTask := nextTask w;
     stopped := s; trace := trace w |}.

Definition set_trace (t : list Effect) (w : World) : World :=
  {| prediction := prediction w; isCameraOn := isCameraOn w; mode := mode w;
     videoRef := videoRef w; canvasRef := canvasRef w; mounted := mounted w;
     effDeps := effDeps w; effInterval := effInterval w;
     timers := timers w; nextTimer := nextTimer w;
     tasks := tasks w; nextTask := nextTask w;
     stopped := stopped w; trace := t |}.

(** ** Browser primitives *)

Definition emit (e : Effect) (w : World) : World :=
  set_trace (trace w ++ [e])%list w.

Definition console_error (msg : string) (error : Error) : World → World :=
  emit (Console Err msg (Some error)).

Definition add_timer (t : Timer) (w : World) : nat * World :=
  (nextTimer w, set_timers (<[nextTimer w := t]> (timers w)) (S (nextTimer w)) w).

Definition setInterval (cb : Callback) (delay : Z) : World → nat * World :=
  add_timer {| timer_repeat := true; timer_delay := delay; timer_cb := cb |}.

Definition setTimeout (cb : Callback) (delay : Z) : World → nat * World :=
  add_timer {| timer_repeat := false; timer_delay := delay; timer_cb := cb |}.

Definition remove_timer (id : nat) (w : World) : World :=
  set_timers (delete id (timers w)) (nextTimer w) w.

(** [clearInterval(undefined)] does nothing. *)
Definition clearInterval (handle : option nat) (w : World) : World :=
  match handle with
  | Some id => remove_timer id w
  | None => w
  end.

(** Asynchronous code that reaches an [await] (or hands a callback to the
    browser) is parked under a fresh id until the browser settles it. *)
Definition suspend (p : Pending) (w : World) : World :=
  set_tasks (<[nextTask w := p]> (tasks w)) (S (nextTask w)) w.

Definition resume (id : nat) (p : Pending) (w : World) : World :=
  set_tasks (<[id := p]> (tasks w)) (nextTask w) w.

Definition finish (id : nat) (w : World) : World :=
  set_tasks (delete id (tasks w)) (nextTask w) w.

(** [track.stop()] *)
Definition track_stop (w : World) (t : TrackId) : World :=
  set_stopped ({[ t ]} ∪ stopped w) w.

(** ** The component: GestureRecognition

    State setters write the hook's cell at once.  (React drops updates to an
    unmounted component; an unmounted component neither renders nor runs
    effects, so the written cell is never observed there.) *)

Definition setPrediction : value → World → World := set_prediction.
Definition setIsCameraOn : bool → World → World := set_isCameraOn.
Definition setMode : Mode → World → World := set_mode.

(** *** startCamera (lines 14-32) *)

(** Up to [await navigator.mediaDevices.getUserMedia({ video: true })]. *)
Definition startCamera (w : World) : World :=
  suspend AwaitUserMedia (emit (GetUserMedia true) w).

(** The arrow function given to [setTimeout] (lines 19-26). *)
Definition attachStream (stream : MediaStream) (w : World) : World :=
  match videoRef w with
  | Some _ =>
      emit (Console Log "Camera started and video element found." None)
        (set_refs (Some {| srcObject := Some stream |}) (canvasRef w) w)
  | None =>
      emit (Console Warn "videoRef is null when setting srcObject." None) w
  end.

(** After the [await]: the rest of the [try] block, or the [catch]. *)
Definition startCamera_settled (r : Settled MediaStream) (w : World) : World :=
  match r with
  | Resolved stream =>
      setIsCameraOn true (snd (setTimeout (AttachStream stream) 100 w))
  | Rejected error =>
      console_error "Error accessing webcam:" error w
  end.

(** *** closeCamera (lines 34-41) *)

Definition closeCamera (w : World) : World :=
  let w1 :=
    match videoRef w with
    | Some video =>
        match srcObject video with
        | Some stream =>
            set_refs (Some {| srcObject := None |}) (canvasRef w)
              (foldl track_stop w stream)
        | None => w
        end
    | None => w
    end in
  setIsCameraOn false w1.

(** *** captureAndSendFrame (lines 43-76) *)

Definition endpoint (m : Mode) : string :=
  if decide (m = Hand)
  then "http://localhost:8000/predict/hand/"
  else "http://localhost:8000/predict/body/".

(** Up to the call of [canvas.toBlob]; [m] is the [mode] the closure holds. *)
Definition captureAndSendFrame (m : Mode) (w : World) : World :=
  match videoRef w, canvasRef w with
  | Some video, Some canvas =>
      if canvas_2d canvas then
        let w1 := emit (DrawImage 0 0 (canvas_width canvas) (canvas_height canvas)) w in
        suspend (AwaitBlob m) (emit (ToBlob "image/jpeg") w1)
      else w
  | _, _ => w
  end.

(** [formData.append(name, blob, filename)] *)
Definition formData_append (fd : FormData) (name : string) (b : Blob) (filename : string)
  : FormData :=
  (fd ++ [{| entry_name := name; entry_blob := b; entry_filename := filename |}])%list.

(** The toBlob callback, up to [await fetch(...)] (lines 52-66). *)
Definition blobCallback (id : nat) (m : Mode) (blob : option Blob) (w : World) : World :=
  match blob with
  | Some b =>
      let formData := formData_append [] "file" b "frame.jpg" in
      let request :=
        {| req_url := endpoint m;
           req_init := [("method", IString "POST"); ("body", IForm formData)] |} in
      resume id AwaitFetch (emit (Fetch request) w)
  | None => finish id w
  end.

(** After [await fetch]: on to [await response.json()], or the [catch]. *)
Definition fetch_settled (id : nat) (r : Settled Response) (w : World) : World :=
  match r with
  | Resolved response => resume id AwaitJson (emit ReadJson w)
  | Rejected error => finish id (console_error "Error fetching prediction:" error w)
  end.

(** Lines 69-70; a property read that throws leaves through the second
    component. *)
Definition use_data (data : value) (w : World) : World * option Error :=
  match get_prop data "hand_gesture" with
  | inl error => (w, Some error)
  | inr hand_gesture =>
      let w1 := if truthy hand_gesture then setPrediction hand_gesture w else w in
      match get_prop data "body_pose" with
      | inl error => (w1, Some error)
      | inr body_pose =>
          (if truthy body_pose then setPrediction body_pose w1 else w1, None)
      end
  end.

(** After [await response.json()] (lines 68-73). *)
Definition json_settled (id : nat) (r : Settled value) (w : World) : World :=
  match r with
  | Resolved data =>
      match use_data data w with
      | (w1, None) => finish id w1
      | (w1, Some error) => finish id (console_error "Error fetching prediction:" error w1)
      end
  | Rejected error => finish id (console_error "Error fetching prediction:" error w)
  end.

(** *** The interval effect (lines 78-84) and the unmount cleanup (10-12) *)

Definition intervalEffect (w : World) : World :=
  if isCameraOn w then
    let '(interval, w1) := setInterval (CaptureAndSendFrame (mode w)) 1000 w in
    set_effect (isCameraOn w, mode w) (Some interval) w1
  else set_effect (isCameraOn w, mode w) None w.

Definition intervalCleanup (w : World) : World :=
  clearInterval (effInterval w) w.

(** What React does after a handler has run: when a dependency of the
    interval effect changed, its cleanup runs and the effect runs anew. *)
Definition commit (w : World) : World :=
  if mounted w then
    if decide (effDeps w = (isCameraOn w, mode w)) then w
    else intervalEffect (intervalCleanup w)
  else w.

(** Unmounting runs the cleanups of both effects, in order. *)
Definition unmount (w : World) : World :=
  set_mounted false (intervalCleanup (closeCamera w)).

(** *** Render (lines 101-205), reduced to what it shows and wires *)

Inductive Handler := HStartCamera | HCloseCamera.

Record View := {
  view_fullscreen : bool;
  view_predictions : list value;      (* the child of each Prediction span *)
  view_camera_label : string;
  view_camera_onClick : Handler
}.

Definition prediction_span (w : World) : value :=
  js_or (prediction w) (VString "N/A").

Definition render (w : World) : View :=
  let body_on := bool_decide (mode w = Body) && isCameraOn w in
  if body_on then
    {| view_fullscreen := true;
       view_predictions := [prediction_span w];
       view_camera_label := "Close Camera";
       view_camera_onClick := HCloseCamera |}
  else
    {| view_fullscreen := false;
       view_predictions :=
         ((if body_on then [prediction_span w] else []) ++
          (if bool_decide (mode w = Hand) || negb (isCameraOn w)
           then [prediction_span w] else []))%list;
       view_camera_label := if isCameraOn w then "Close Camera" else "Open Camera";
       view_camera_onClick := if isCameraOn w then HCloseCamera else HStartCamera |}.

(** ** The event loop *)

Inductive Event : Type :=
  | ClickCamera
  | ClickMode (m : Mode)
  | TimerFire (id : nat)
  | UserMediaSettled (id : nat) (r : Settled MediaStream)
  | BlobReady (id : nat) (blob : option Blob)
  | FetchSettled (id : nat) (r : Settled Response)
  | JsonSettled (id : nat) (r : Settled value)
  | SetRefs (v : option Video) (c : option Canvas)   (* React attaches or detaches the refs *)
  | Unmount.

Definition run_callback (cb : Callback) : World → World :=
  match cb with
  | CaptureAndSendFrame m => captureAndSendFrame m
  | AttachStream s => attachStream s
  end.

Definition run_handler (h : Handler) : World → World :=
  match h with
  | HStartCamera => startCamera
  | HCloseCamera => closeCamera
  end.

Definition handle (w : World) (ev : Event) : World :=
  match ev with
  | ClickCamera =>
      if mounted w then run_handler (view_camera_onClick (render w)) w else w
  | ClickMode m =>
      if mounted w then setMode m w else w
  | TimerFire id =>
      match timers w !! id with
      | Some t =>
          (* an interval stays armed, a timeout is spent *)
          run_callback (timer_cb t)
            (if timer_repeat t then w else remove_timer id w)
      | None => w
      end
  | UserMediaSettled id r =>
      match tasks w !! id with
      | Some AwaitUserMedia => startCamera_settled r (finish id w)
      | _ => w
      end
  | BlobReady id blob =>
      match tasks w !! id with
      | Some (AwaitBlob m) => blobCallback id m blob w
      | _ => w
      end
  | FetchSettled id r =>
      match tasks w !! id with
      | Some AwaitFetch => fetch_settled id r w
      | _ => w
      end
  | JsonSettled id r =>
      match tasks w !! id with
      | Some AwaitJson => json_settled id r w
      | _ => w
      end
  | SetRefs v c =>
      if mounted w then set_refs v c w else w
  | Unmount =>
      if mounted w then unmount w else w
  end.

Definition step (w : World) (ev : Event) : World := commit (handle w ev).

Definition run (w : World) (evs : list Event) : World := foldl step w evs.

(** The component right after its first render: initial hook state, refs
    attached, both effects run once. *)
Definition init (v : Video) (c : Canvas) : World :=
  intervalEffect
    {| prediction := VString ""; isCameraOn := false; mode := Hand;
       videoRef := Some v; canvasRef := Some c; mounted := true;
       effDeps := (false, Hand); effInterval := None;
       timers := ∅; nextTimer := 1; tasks := ∅; nextTask := 0;
       stopped := ∅; trace := [] |}.

Inductive reachable : World → Prop :=
  | reachable_init v c : reachable (init v c)
  | reachable_step w ev : reachable w → reachable (step w ev).

(** ** Vocabulary of the statements *)

(** The three state hooks. *)
Definition hook_state (w : World) : value * bool * Mode :=
  (prediction w, isCameraOn w, mode w).

Definition fetch_of (e : Effect) : option Request :=
  match e with Fetch r => Some r | _ => None end.

(** The requests sent so far, oldest first. *)
Definition requests_sent (w : World) : list Request := omap fetch_of (trace w).

Fixpoint init_get (init : list (string * InitValue)) (k : string) : option InitValue :=
  match init with
  | [] => None
  | (k', v) :: rest => if String.eqb k' k then Some v else init_get rest k
  end.

Definition frame_request (m : Mode) (b : Blob) : Request :=
  {| req_url := endpoint m;
     req_init :=
       [("method", IString "POST");
        ("body", IForm [{| entry_name := "file"; entry_blob := b;
                           entry_filename := "frame.jpg" |}])] |}.

Definition frame_post (r : Request) : Prop :=
  ∃ m b,
    r = {| req_url := endpoint m;
           req_init :=
             [("method", IString "POST");
              ("body", IForm [{| entry_name := "file"; entry_blob := b;
                                 entry_filename := "frame.jpg" |}])] |}.

Definition fetch_error_log (error : Error) : Effect :=
  Console Err "Error fetching prediction:" (Some error).

(** [data.k] as the response handler sees it: nothing to read on null. *)
Definition field (data : value) (k : string) : value :=
  match get_prop data k with
  | inr v => v
  | inl _ => VUndefined
  end.

(** The label a parsed response leaves in the prediction state. *)
Definition label_after (data old : value) : value :=
  if truthy (field data "body_pose") then field data "body_pose"
  else if truthy (field data "hand_gesture") then field data "hand_gesture"
  else old.

(** One frame upload, run without other events in between. *)
Definition upload (m : Mode) (blob : option Blob) (w : World) : World :=
  step (captureAndSendFrame m w) (BlobReady (nextTask w) blob).

(** The suspended code an event resumes, if any. *)
Definition addressed (ev : Event) : option nat :=
  match ev with
  | UserMediaSettled id _ | BlobReady id _ | FetchSettled id _ | JsonSettled id _ =>
      Some id
  | _ => None
  end.

(** [n] timer firings, each followed by its encoded blob; no response
    arrives.  The uploads take the task ids [first], [first + 1], ... *)
Fixpoint rounds (tid : nat) (blob : Blob) (first n : nat) : list Event :=
  match n with
  | 0 => []
  | S n => TimerFire tid :: BlobReady first (Some blob) :: rounds tid blob (S first) n
  end.

(** What [setInterval(captureAndSendFrame, 1000)] puts in the timer table. *)
Definition interval_timer (m : Mode) : Timer :=
  {| timer_repeat := true; timer_delay := 1000; timer_cb := CaptureAndSendFrame m |}.

(** A reachable world in which the interval timer [tid] is armed and both
    refs are attached. *)
Definition ready (tid : nat) (video : Video) (canvas : Canvas) (w : World) : Prop :=
  reachable w
  ∧ timers w !! tid = Some (interval_timer (mode w))
  ∧ videoRef w = Some video ∧ canvasRef w = Some canvas.

(** ** Invariants of the event loop *)

(** The dependencies of the interval effect are those of the last run. *)
Definition synced (w : World) : Prop :=
  mounted w = true → effDeps w = (isCameraOn w, mode w).

(** The timer table agrees with the interval effect's last run. *)
Record timers_ok (w : World) : Prop := {
  timers_fresh : ∀ id t, timers w !! id = Some t → id < nextTimer w;
  timers_interval :
    mounted w = true → (effDeps w).1 = true →
    ∃ id, effInterval w = Some id ∧
          timers w !! id = Some (interval_timer (effDeps w).2);
  timers_repeat :
    ∀ id t, timers w !! id = Some t → timer_repeat t = true →
            mounted w = true ∧ (effDeps w).1 = true ∧ effInterval w = Some id;
  timers_once :
    ∀ id t, timers w !! id = Some t → timer_repeat t = false →
            ∃ s, timer_cb t = AttachStream s
}.

Definition timer_view (w : World) :=
  (timers w, nextTimer w, effDeps w, effInterval w, mounted w).

Definition prediction_ok (w : World) : Prop :=
  prediction w = VString "" ∨ truthy (prediction w) = true.

Definition tasks_ok (w : World) : Prop :=
  ∀ id p, tasks w !! id = Some p → id < nextTask w.

Definition media_ok (w : World) : Prop :=
  ∀ id, tasks w !! id = Some AwaitUserMedia → GetUserMedia true ∈ trace w.

(** ** Concrete data for the examples *)

Definition canvas0 : Canvas :=
  {| canvas_width := 640; canvas_height := 480; canvas_2d := true |}.
Definition video0 : Video := {| srcObject := None |}.
Definition blob0 : Blob := [Byte.xff; Byte.xd8; Byte.xff].
Definition ok200 : Response := {| status := 200 |}.
Definition net_down : Error := BrowserError "Failed to fetch".

Definition both_labels : value :=
  VObject [("hand_gesture", VString "pataka"); ("body_pose", VString "araimandi")].

Definition says_pataka : value := VObject [("hand_gesture", VString "pataka")].
Definition says_mushti : value := VObject [("hand_gesture", VString "mushti")].

(** The camera button clicked once: startCamera waits for the stream. *)
Definition asked : World := step (init video0 canvas0) ClickCamera.

(** Camera opened on tracks 7 and 8, stream attached after the timeout. *)
Definition camera_on : World :=
  run (init video0 canvas0)
    [ClickCamera; UserMediaSettled 0 (Resolved [7; 8]); TimerFire 1].

(** Body mode chosen after the camera came on; the interval was re-armed
    as timer 3. *)
Definition body_camera : World := step camera_on (ClickMode Body).

(** A world in which one upload has been posted and is awaiting its
    response (task 1). *)
Definition posted : World := upload Hand (Some blob0) camera_on.

(** The upload of [posted] with its response received and its body being
    read (task 1 at [await response.json()]). *)
Definition answered : World := step posted (FetchSettled 1 (Resolved ok200)).

(** Two uploads posted one timer period apart, both answered, both bodies
    still being read (tasks 1 and 2). *)
Definition two_answered : World :=
  run camera_on
    (rounds 2 blob0 1 2
     ++ [FetchSettled 1 (Resolved ok200); FetchSettled 2 (Resolved ok200)]).

(** ** Basic facts *)

Lemma commit_synced_id w : synced w → commit w = w.
Proof.
  unfold synced, commit. intros H. destruct (mounted w); [|done].
  rewrite decide_True; auto.
Qed.

(** [commit] touches nothing but the effect's bookkeeping and the timers. *)
Lemma commit_frame w :
  prediction (commit w) = prediction w ∧ isCameraOn (commit w) = isCameraOn w ∧
  mode (commit w) = mode w ∧ videoRef (commit w) = videoRef w ∧
  canvasRef (commit w) = canvasRef w ∧ mounted (commit w) = mounted w ∧
  tasks (commit w) = tasks w ∧ nextTask (commit w) = nextTask w ∧
  stopped (commit w) = stopped w ∧ trace (commit w) = trace w.
Proof.
  unfold commit, intervalEffect, intervalCleanup, clearInterval.
  destruct (mounted w) eqn:Hm; [|by rewrite ?Hm].
  case_decide; [by rewrite ?Hm|].
  destruct (isCameraOn w) eqn:Hc; destruct (effInterval w); simpl; by rewrite ?Hm, ?Hc.
Qed.

Lemma foldl_track_stop (stream : MediaStream) w :
  foldl track_stop w stream = set_stopped (list_to_set stream ∪ stopped w) w.
Proof.
  revert w. induction stream as [|t stream IH]; intros w; simpl.
  - rewrite (left_id_L ∅ (∪)). by destruct w.
  - rewrite IH. unfold track_stop, set_stopped; simpl. f_equal.
    by rewrite (assoc_L (∪)), (comm_L (∪) (list_to_set stream)).
Qed.

(** Case analysis of one handler run. *)
Ltac handle_cases :=
  unfold handle, run_handler, run_callback, render, unmount, intervalCleanup,
    clearInterval, remove_timer, startCamera_settled, blobCallback, fetch_settled,
    json_settled, use_data, get_prop, closeCamera, attachStream,
    captureAndSendFrame, startCamera, setIsCameraOn, setPrediction, setMode;
  repeat (case_match; simplify_eq/=);
  rewrite ?foldl_track_stop; simpl.

Ltac elem_cases H :=
  repeat (apply elem_of_cons in H as [H|H]; [try discriminate|]);
  try (by apply elem_of_nil in H).

(** ** closeCamera *)

(** C9.  After any call of closeCamera, isCameraOn is false; when a stream
    is attached to the video element, every track of the stream has been
    stopped and srcObject is null afterwards; when none is attached the call
    only sets isCameraOn to false; and calling closeCamera twice gives the
    same world as calling it once. *)
Theorem closeCamera_stops_tracks_and_is_idempotent (w : World) :
  isCameraOn (closeCamera w) = false
  ∧ (∀ video stream,
       videoRef w = Some video → srcObject video = Some stream →
       (∀ t, t ∈ stream → t ∈ stopped (closeCamera w))
       ∧ videoRef (closeCamera w) = Some {| srcObject := None |})
  ∧ ((∀ video, videoRef w = Some video → srcObject video = None) →
       closeCamera w = setIsCameraOn false w)
  ∧ closeCamera (closeCamera w) = closeCamera w.
Proof.
  split; [by unfold closeCamera|].
  split; [intros video stream Hv Hs; split|split].
  - intros t Ht. unfold closeCamera. rewrite Hv, Hs, foldl_track_stop. simpl.
    apply elem_of_union_l. by apply elem_of_list_to_set.
  - unfold closeCamera. by rewrite Hv, Hs.
  - intros Hnone. unfold closeCamera.
    destruct (videoRef w) as [video|] eqn:Hv; [|done].
    by rewrite (Hnone video eq_refl).
  - unfold closeCamera.
    destruct (videoRef w) as [[[stream|]]|] eqn:Hv; simpl; rewrite ?Hv; simpl; try done.
Qed.

Lemma closeCamera_stops_tracks_and_is_idempotent_witness :
  7 ∈ stopped (closeCamera camera_on) ∧ 8 ∈ stopped (closeCamera camera_on)
  ∧ videoRef (closeCamera camera_on) = Some {| srcObject := None |}
  ∧ closeCamera (closeCamera camera_on) = closeCamera camera_on.
Proof.
  destruct (closeCamera_stops_tracks_and_is_idempotent camera_on)
    as (_ & Hstop & _ & Hidem).
  destruct (Hstop {| srcObject := Some [7; 8] |} [7; 8] eq_refl eq_refl)
    as [Hall Hnull].
  split; [apply Hall, list_elem_of_In; simpl; auto|].
  split; [apply Hall, list_elem_of_In; simpl; auto|].
  split; [exact Hnull | exact Hidem].
Defined.

(** ** The timer table *)

Lemma timers_ok_ext w w' : timer_view w' = timer_view w → timers_ok w → timers_ok w'.
Proof.
  unfold timer_view. intros [= Ht Hn Hd Hi Hm] [H1 H2 H3 H4].
  split; rewrite ?Ht, ?Hn, ?Hd, ?Hi, ?Hm; done.
Qed.

Lemma timers_ok_setTimeout w s delay :
  timers_ok w → timers_ok (setTimeout (AttachStream s) delay w).2.
Proof.
  intros [H1 H2 H3 H4]. split; simpl.
  - intros id t. rewrite lookup_insert. case_decide; [lia|].
    intros Ht. apply H1 in Ht. lia.
  - intros Hm Hd. destruct (H2 Hm Hd) as (id & Hi & Ht). exists id. split; [done|].
    rewrite lookup_insert_ne; [done|]. apply H1 in Ht. lia.
  - intros id t. rewrite lookup_insert. case_decide; [by intros [= <-]|]. apply H3.
  - intros id t. rewrite lookup_insert. case_decide; [intros [= <-] _; by eexists|].
    apply H4.
Qed.

Lemma timers_ok_fire_once w id t :
  timers_ok w → timers w !! id = Some t → timer_repeat t = false →
  timers_ok (remove_timer id w).
Proof.
  intros [H1 H2 H3 H4] Ht Hr. split; simpl.
  - intros id' t'. rewrite lookup_delete. case_decide; [done|]. apply H1.
  - intros Hm Hd. destruct (H2 Hm Hd) as (id' & Hi & Ht'). exists id'. split; [done|].
    rewrite lookup_delete_ne; [done|]. intros ->. rewrite Ht in Ht'.
    injection Ht' as ->. done.
  - intros id' t'. rewrite lookup_delete. case_decide; [done|]. apply H3.
  - intros id' t'. rewrite lookup_delete. case_decide; [done|]. apply H4.
Qed.

Lemma closeCamera_timer_view w : timer_view (closeCamera w) = timer_view w.
Proof.
  unfold closeCamera. destruct (videoRef w) as [[[stream|]]|]; simpl; try done.
  by rewrite foldl_track_stop.
Qed.

(** The cleanup of the interval effect leaves no repeating timer behind. *)
Lemma intervalCleanup_timers w :
  timers_ok w →
  (∀ id t, timers (intervalCleanup w) !! id = Some t →
           timer_repeat t = false ∧ timers w !! id = Some t).
Proof.
  intros [H1 H2 H3 H4] id t. unfold intervalCleanup.
  destruct (effInterval w) as [i|] eqn:Hi; simpl.
  - rewrite lookup_delete. case_decide; [done|]. intros Ht. split; [|done].
    destruct (timer_repeat t) eqn:Hr; [|done].
    destruct (H3 _ _ Ht Hr) as (_ & _ & Hi'). congruence.
  - intros Ht. split; [|done]. destruct (timer_repeat t) eqn:Hr; [|done].
    destruct (H3 _ _ Ht Hr) as (_ & _ & Hi'). congruence.
Qed.

Lemma intervalCleanup_frame w :
  nextTimer (intervalCleanup w) = nextTimer w
  ∧ mounted (intervalCleanup w) = mounted w
  ∧ isCameraOn (intervalCleanup w) = isCameraOn w
  ∧ mode (intervalCleanup w) = mode w.
Proof. unfold intervalCleanup. by destruct (effInterval w). Qed.

Lemma timers_ok_unmount w : timers_ok w → timers_ok (unmount w).
Proof.
  intros Hok. apply (timers_ok_ext w (closeCamera w)) in Hok; [|apply closeCamera_timer_view].
  unfold unmount. generalize dependent (closeCamera w). clear w. intros w Hok.
  pose proof (intervalCleanup_timers w Hok) as Hts.
  destruct (intervalCleanup_frame w) as (Hn & _).
  destruct Hok as [H1 H2 H3 H4]. split; simpl.
  - intros id t Ht. apply Hts in Ht as [_ Ht]. rewrite Hn. eauto.
  - done.
  - intros id t Ht Hr. apply Hts in Ht as [Hr' _]. congruence.
  - intros id t Ht Hr. apply Hts in Ht as [_ Ht]. eauto.
Qed.

Lemma timers_ok_commit w : timers_ok w → timers_ok (commit w) ∧ synced (commit w).
Proof.
  intros Hok. unfold commit. destruct (mounted w) eqn:Hm; [|by unfold synced; rewrite Hm].
  case_decide as Hd; [by unfold synced|].
  pose proof (intervalCleanup_timers w Hok) as Hts.
  destruct (intervalCleanup_frame w) as (Hn & Hm1 & Hc & Hmo).
  destruct Hok as [H1 H2 H3 H4]. rewrite Hm in Hm1.
  generalize dependent (intervalCleanup w). intros w1 Hts Hn Hm1 Hc Hmo.
  unfold intervalEffect. destruct (isCameraOn w1) eqn:Hon; simpl.
  - split; [split|]; simpl.
    + intros id t. rewrite lookup_insert. case_decide; [lia|].
      intros Ht. apply Hts in Ht as [_ Ht]. apply H1 in Ht. lia.
    + intros _ _. exists (nextTimer w1). by rewrite lookup_insert_eq.
    + intros id t. rewrite lookup_insert. case_decide; [by subst|].
      intros Ht Hr. apply Hts in Ht as [Hr' _]. congruence.
    + intros id t. rewrite lookup_insert. case_decide; [by intros [= <-]|].
      intros Ht Hr. apply Hts in Ht as [_ Ht]. eauto.
    + unfold synced; simpl. by rewrite Hon.
  - split; [split|]; simpl.
    + intros id t Ht. apply Hts in Ht as [_ Ht]. apply H1 in Ht. lia.
    + done.
    + intros id t Ht Hr. apply Hts in Ht as [Hr' _]. congruence.
    + intros id t Ht Hr. apply Hts in Ht as [_ Ht]. eauto.
    + unfold synced; simpl. by rewrite Hon.
Qed.

Lemma run_callback_timer_view cb w : timer_view (run_callback cb w) = timer_view w.
Proof.
  destruct cb as [m|s]; simpl.
  - unfold captureAndSendFrame. by repeat case_match.
  - unfold attachStream. by case_match.
Qed.

Lemma use_data_timer_view data w : timer_view (use_data data w).1 = timer_view w.
Proof. unfold use_data. by repeat case_match. Qed.

Lemma timers_ok_handle w ev : timers_ok w → timers_ok (handle w ev).
Proof.
  intros Hok. destruct ev as [|m|id|id r|id blob|id r|id r|v c|]; simpl.
  - destruct (mounted w); [|done]. revert Hok. apply timers_ok_ext.
    destruct (view_camera_onClick (render w)); simpl; [done|].
    apply closeCamera_timer_view.
  - destruct (mounted w); [|done]. revert Hok. by apply timers_ok_ext.
  - destruct (timers w !! id) as [t|] eqn:Ht; [|done].
    eapply timers_ok_ext; [apply run_callback_timer_view|].
    destruct (timer_repeat t) eqn:Hr; [done|]. by eapply timers_ok_fire_once.
  - destruct (tasks w !! id) as [[]|]; try done. destruct r as [stream|error].
    + unfold startCamera_settled.
      eapply timers_ok_ext; [|apply (timers_ok_setTimeout (finish id w))]; [done|].
      revert Hok. by apply timers_ok_ext.
    + revert Hok. by apply timers_ok_ext.
  - destruct (tasks w !! id) as [[]|]; try done. revert Hok. apply timers_ok_ext.
    by destruct blob.
  - destruct (tasks w !! id) as [[]|]; try done. revert Hok. apply timers_ok_ext.
    by destruct r.
  - destruct (tasks w !! id) as [[]|]; try done. revert Hok. apply timers_ok_ext.
    destruct r as [data|error]; [|done]. unfold json_settled.
    pose proof (use_data_timer_view data w) as Hu.
    by destruct (use_data data w) as [w1 [error|]].
  - destruct (mounted w); [|done]. revert Hok. by apply timers_ok_ext.
  - destruct (mounted w); [|done]. by apply timers_ok_unmount.
Qed.

Lemma timers_ok_init v c : timers_ok (init v c) ∧ synced (init v c).
Proof. split; [split|]; simpl; try done; intros id t; by rewrite lookup_empty. Qed.

Lemma reachable_timers_ok w : reachable w → timers_ok w ∧ synced w.
Proof.
  induction 1 as [v c|w ev _ [IH _]].
  - apply timers_ok_init.
  - apply timers_ok_commit. by apply timers_ok_handle.
Qed.

Lemma reachable_run w evs : reachable w → reachable (run w evs).
Proof.
  revert w. induction evs as [|ev evs IH]; intros w Hw; [done|].
  apply IH. by constructor.
Qed.

Lemma camera_on_reachable : reachable camera_on.
Proof. apply reachable_run. constructor. Qed.

Lemma captureAndSendFrame_synced m w : synced w → synced (captureAndSendFrame m w).
Proof. unfold synced, captureAndSendFrame. by repeat case_match. Qed.

Lemma captureAndSendFrame_timers m w :
  timers (captureAndSendFrame m w) = timers w.
Proof. unfold captureAndSendFrame. by repeat case_match. Qed.

Lemma captureAndSendFrame_mode m w : mode (captureAndSendFrame m w) = mode w.
Proof. unfold captureAndSendFrame. by repeat case_match. Qed.

Lemma closeCamera_frame w :
  tasks (closeCamera w) = tasks w ∧ nextTask (closeCamera w) = nextTask w
  ∧ trace (closeCamera w) = trace w ∧ prediction (closeCamera w) = prediction w
  ∧ mode (closeCamera w) = mode w ∧ mounted (closeCamera w) = mounted w.
Proof.
  unfold closeCamera. destruct (videoRef w) as [[[stream|]]|]; simpl; try done.
  by rewrite foldl_track_stop.
Qed.

Lemma handle_click_close w :
  mounted w = true → isCameraOn w = true → handle w ClickCamera = closeCamera w.
Proof.
  intros Hm Hc. unfold handle, render. rewrite Hm, Hc. by destruct (mode w).
Qed.

Lemma step_close_camera w :
  reachable w → mounted w = true → isCameraOn w = true →
  ∃ id, effInterval w = Some id
        ∧ timers w !! id = Some (interval_timer (mode w))
        ∧ step w ClickCamera
          = set_effect (false, mode w) None
              (remove_timer id (closeCamera w)).
Proof.
  intros Hr Hm Hc. destruct (reachable_timers_ok w Hr) as [[H1 H2 H3 H4] Hs].
  specialize (Hs Hm). rewrite Hs in H2. simpl in H2.
  destruct (H2 Hm Hc) as (id & Hi & Ht). exists id. split; [done|]. split; [done|].
  unfold step. rewrite handle_click_close by done.
  destruct (closeCamera_frame w) as (_ & _ & _ & _ & Hmo & Hmn).
  pose proof (closeCamera_timer_view w) as Hv. unfold timer_view in Hv.
  assert (Hd : effDeps (closeCamera w) = effDeps w) by congruence.
  assert (Hi' : effInterval (closeCamera w) = effInterval w) by congruence.
  clear Hv.
  assert (Hoff : isCameraOn (closeCamera w) = false) by done.
  unfold commit. rewrite Hmn, Hm, Hd, Hs, Hoff, Hmo.
  rewrite decide_False by (rewrite Hc; congruence).
  generalize dependent (closeCamera w). intros w1 Hmo Hmn Hd Hi' Hoff.
  unfold intervalCleanup, clearInterval, intervalEffect. rewrite Hi', Hi. simpl.
  by rewrite Hoff, Hmo.
Qed.

(** Unmounting: the flag goes down and the interval of the last effect run
    is cleared. *)
Lemma step_unmount w :
  mounted (step w Unmount) = false
  ∧ (mounted w = true →
     timers (step w Unmount)
     = match effInterval w with
       | Some id => delete id (timers w)
       | None => timers w
       end).
Proof.
  unfold step. destruct (mounted w) eqn:Hm.
  - assert (He : commit (handle w Unmount) = unmount w).
    { unfold handle. rewrite Hm. by unfold commit, unmount. }
    rewrite He. split; [done|]. intros _.
    pose proof (closeCamera_timer_view w) as Hv. unfold timer_view in Hv.
    assert (Hts : timers (closeCamera w) = timers w) by congruence.
    assert (Hi : effInterval (closeCamera w) = effInterval w) by congruence.
    clear Hv. unfold unmount, intervalCleanup. rewrite <- Hts, <- Hi.
    generalize (closeCamera w). intros w1. unfold clearInterval.
    by destruct (effInterval w1).
  - unfold handle. rewrite Hm. unfold commit. by rewrite Hm.
Qed.

Lemma run_stays_unmounted w evs :
  mounted w = false → mounted (run w evs) = false.
Proof.
  revert w. induction evs as [|ev evs IH]; intros w Hm; [done|].
  simpl. apply IH. unfold step.
  destruct (commit_frame (handle w ev)) as (_&_&_&_&_& -> & _).
  destruct ev; handle_cases; congruence.
Qed.

(** ** The interval effect *)

(** C1.  In every reachable world: while the component is mounted and
    isCameraOn is true, the timer table holds exactly one repeating timer;
    its delay is 1000 ms and its callback is captureAndSendFrame; each time
    it fires captureAndSendFrame runs and the timer stays armed.  Closing
    the camera turns isCameraOn off and removes that timer from the table,
    and so does unmounting.  When isCameraOn is false or the component is
    unmounted, no timer with a captureAndSendFrame callback is left in the
    table.  An unmount always takes the component down, and whatever events
    follow it, the component stays unmounted and no capture is scheduled. *)
Theorem interval_armed_iff_camera_on (w : World) :
  reachable w →
  (mounted w = true → isCameraOn w = true →
   ∃ id,
     timers w !! id = Some (interval_timer (mode w))
     ∧ (∀ id' t, timers w !! id' = Some t → timer_repeat t = true → id' = id)
     ∧ (∀ n, run w (replicate n (TimerFire id))
               = Nat.iter n (captureAndSendFrame (mode w)) w
             ∧ timers (run w (replicate n (TimerFire id))) !! id
               = Some (interval_timer (mode w)))
     ∧ isCameraOn (step w ClickCamera) = false
     ∧ timers (step w ClickCamera) = delete id (timers w)
     ∧ timers (step w Unmount) = delete id (timers w))
  ∧ (mounted w = false ∨ isCameraOn w = false →
     ∀ id t m, timers w !! id = Some t → timer_cb t ≠ CaptureAndSendFrame m)
  ∧ (∀ evs,
       mounted (run (step w Unmount) evs) = false
       ∧ ∀ id t m, timers (run (step w Unmount) evs) !! id = Some t →
                   timer_cb t ≠ CaptureAndSendFrame m).
Proof.
  intros Hr.
  assert (Hoffline : ∀ u, reachable u →
            mounted u = false ∨ isCameraOn u = false →
            ∀ id t m, timers u !! id = Some t → timer_cb t ≠ CaptureAndSendFrame m).
  { clear w Hr. intros w Hr Hoff id t m Ht Hcb.
    destruct (reachable_timers_ok w Hr) as [[H1 H2 H3 H4] Hs].
    destruct (timer_repeat t) eqn:Hrep.
    - destruct (H3 _ _ Ht Hrep) as (Hm & Hd & _).
      destruct Hoff as [Hoff|Hoff]; [congruence|].
      rewrite (Hs Hm) in Hd. simpl in Hd. congruence.
    - destruct (H4 _ _ Ht Hrep) as (s & Hs'). congruence. }
  destruct (reachable_timers_ok w Hr) as [[H1 H2 H3 H4] Hs].
  split; [|split].
  - intros Hm Hc. specialize (Hs Hm). rewrite Hs in H2, H3; simpl in *.
    destruct (H2 Hm Hc) as (id & Hi & Ht). exists id. split; [done|].
    split; [|split; [|split; [|split]]].
    + intros id' t Ht' Hr'. destruct (H3 _ _ Ht' Hr') as (_ & _ & ?). congruence.
    + assert (Hiter : ∀ n,
        let wn := Nat.iter n (captureAndSendFrame (mode w)) w in
        synced wn ∧ timers wn = timers w ∧ mode wn = mode w).
      { induction n as [|n (IHs & IHt & IHm)]; simpl.
        - split; [|done]. intros _. done.
        - split; [by apply captureAndSendFrame_synced|].
          rewrite captureAndSendFrame_timers. split; [done|].
          by rewrite captureAndSendFrame_mode. }
      assert (Hrun : ∀ n, run w (replicate n (TimerFire id))
                          = Nat.iter n (captureAndSendFrame (mode w)) w).
      { induction n as [|n IH]; [done|].
        replace (S n) with (n + 1) by lia.
        rewrite replicate_add. unfold run in *. rewrite foldl_app, IH. simpl.
        replace (n + 1) with (S n) by lia. simpl.
        destruct (Hiter n) as (Hsn & Htn & Hmn). unfold step, handle.
        rewrite Htn, Ht. simpl. apply commit_synced_id.
        by apply captureAndSendFrame_synced. }
      intros n. split; [apply Hrun|]. rewrite Hrun.
      destruct (Hiter n) as (_ & -> & _). done.
    + destruct (step_close_camera w Hr Hm Hc) as (id' & _ & _ & ->). done.
    + destruct (step_close_camera w Hr Hm Hc) as (id' & Hi' & _ & ->).
      pose proof (closeCamera_timer_view w) as Hv. unfold timer_view in Hv.
      assert (Hts : timers (closeCamera w) = timers w) by congruence.
      assert (id' = id) as -> by congruence.
      unfold set_effect, remove_timer, set_timers, timers at 1. by rewrite Hts.
    + destruct (step_unmount w) as [_ Hts]. by rewrite (Hts Hm), Hi.
  - by apply Hoffline.
  - intros evs. destruct (step_unmount w) as [Hdown _].
    pose proof (run_stays_unmounted _ evs Hdown) as Hm.
    split; [done|]. apply Hoffline; [|by left].
    by apply reachable_run, reachable_step.
Qed.

Lemma interval_armed_iff_camera_on_witness :
  (∃ id,
    timers camera_on !! id = Some (interval_timer Hand)
    ∧ (∀ id' t, timers camera_on !! id' = Some t → timer_repeat t = true → id' = id)
    ∧ (∀ n, run camera_on (replicate n (TimerFire id))
              = Nat.iter n (captureAndSendFrame Hand) camera_on
            ∧ timers (run camera_on (replicate n (TimerFire id))) !! id
              = Some (interval_timer Hand))
    ∧ isCameraOn (step camera_on ClickCamera) = false
    ∧ timers (step camera_on ClickCamera) = delete id (timers camera_on)
    ∧ timers (step camera_on Unmount) = delete id (timers camera_on))
  ∧ timers (step camera_on Unmount) !! 2 = None
  ∧ mounted (run (step camera_on Unmount) [TimerFire 2; TimerFire 2]) = false
  ∧ ∀ id t m,
      timers (run (step camera_on Unmount) [TimerFire 2; TimerFire 2]) !! id = Some t →
      timer_cb t ≠ CaptureAndSendFrame m.
Proof.
  destruct (interval_armed_iff_camera_on camera_on camera_on_reachable)
    as (Hon & _ & Hgone).
  split; [exact (Hon eq_refl eq_refl)|]. split.
  - destruct (Hon eq_refl eq_refl) as (id & _ & Honly & _ & _ & _ & Hcleared).
    rewrite Hcleared, <- (Honly 2 (interval_timer Hand) eq_refl eq_refl).
    apply lookup_delete_eq.
  - exact (Hgone [TimerFire 2; TimerFire 2]).
Defined.

(** ** What a handler may add to the trace *)

Lemma handle_trace w ev :
  ∃ es, trace (handle w ev) = trace w ++ es
        ∧ ∀ r, Fetch r ∈ es → frame_post r.
Proof.
  destruct ev; handle_cases; rewrite <- ?app_assoc; simpl;
    try (exists []; rewrite app_nil_r; split; [done|]; intros r' Hin; by elem_cases Hin);
    (eexists; split; [reflexivity|]; intros r' Hin; elem_cases Hin).
  injection Hin as ->. by eexists _, _.
Qed.

Lemma reachable_invariant (P : World → Prop) :
  (∀ v c, P (init v c)) →
  (∀ w ev, P w → P (handle w ev)) →
  (∀ w, P w → P (commit w)) →
  ∀ w, reachable w → P w.
Proof.
  intros Hinit Hhandle Hcommit w. induction 1; [apply Hinit|].
  by apply Hcommit, Hhandle.
Qed.

Lemma elem_of_requests_sent w r : r ∈ requests_sent w ↔ Fetch r ∈ trace w.
Proof.
  unfold requests_sent. rewrite list_elem_of_omap. split.
  - intros (e & Hin & He). destruct e; simplify_eq/=. done.
  - intros Hin. by exists (Fetch r).
Qed.

Lemma reachable_requests w : reachable w → ∀ r, r ∈ requests_sent w → frame_post r.
Proof.
  intros Hr r Hin. apply elem_of_requests_sent in Hin. revert w Hr r Hin.
  apply (reachable_invariant (λ w, ∀ r, Fetch r ∈ trace w → frame_post r)).
  - intros v c r Hin. simpl in Hin. by apply elem_of_nil in Hin.
  - intros w ev IH r. destruct (handle_trace w ev) as (es & -> & Hes).
    rewrite elem_of_app. intros [?|?]; eauto.
  - intros w IH r. destruct (commit_frame w) as (_&_&_&_&_&_&_&_&_&->). apply IH.
Qed.

Lemma reachable_prediction_ok w : reachable w → prediction_ok w.
Proof.
  revert w. apply reachable_invariant.
  - intros v c. by left.
  - intros w ev Hok. destruct ev;
      revert Hok; unfold prediction_ok; handle_cases; auto.
  - intros w. unfold prediction_ok.
    by destruct (commit_frame w) as (-> & _).
Qed.

Lemma handle_tasks_ok w ev : tasks_ok w → tasks_ok (handle w ev).
Proof.
  unfold tasks_ok. intros Hok.
  destruct ev; handle_cases; try done; intros id' p';
    rewrite ?lookup_insert, ?lookup_delete; repeat case_decide;
    subst; try done; intros Hl; first [apply Hok in Hl|idtac];
    eauto with lia.
Qed.

Lemma reachable_tasks_ok w : reachable w → tasks_ok w.
Proof.
  revert w. apply reachable_invariant.
  - intros v c id p. simpl. by rewrite lookup_empty.
  - apply handle_tasks_ok.
  - intros w. unfold tasks_ok.
    by destruct (commit_frame w) as (_&_&_&_&_&_& -> & -> &_).
Qed.

(** ** Requests *)

Lemma posted_reachable : reachable posted.
Proof.
  assert (posted = run camera_on [TimerFire 2; BlobReady 1 (Some blob0)]) as ->
    by (vm_compute; reflexivity).
  apply reachable_run, camera_on_reachable.
Qed.

(** C7.  In every reachable world, every request sent is a POST (the init
    object's method) whose body is a form with the single entry "file"
    holding the frame under the filename "frame.jpg"; the init object has
    no key besides method and body, so neither headers nor credentials,
    and the URL is one of the two fixed prediction URLs. *)
Theorem requests_are_bare_frame_posts (w : World) (r : Request) :
  reachable w → r ∈ requests_sent w →
  init_get (req_init r) "method" = Some (IString "POST")
  ∧ (∃ b, init_get (req_init r) "body"
          = Some (IForm [{| entry_name := "file"; entry_blob := b;
                            entry_filename := "frame.jpg" |}]))
  ∧ r.(req_init).*1 = ["method"; "body"]
  ∧ init_get (req_init r) "headers" = None
  ∧ init_get (req_init r) "credentials" = None
  ∧ (req_url r = "http://localhost:8000/predict/hand/"
     ∨ req_url r = "http://localhost:8000/predict/body/").
Proof.
  intros Hr Hin. destruct (reachable_requests w Hr r Hin) as (m & b & ->). simpl.
  repeat split; eauto. destruct m; auto.
Qed.

Lemma requests_are_bare_frame_posts_witness :
  ∃ r, requests_sent posted = [r]
       ∧ init_get (req_init r) "method" = Some (IString "POST")
       ∧ r.(req_init).*1 = ["method"; "body"]
       ∧ init_get (req_init r) "headers" = None.
Proof.
  eexists. split; [vm_compute; reflexivity|].
  edestruct (requests_are_bare_frame_posts posted) as (Hm & _ & Hk & Hh & _);
    [exact posted_reachable | vm_compute; left |].
  exact (conj Hm (conj Hk Hh)).
Defined.

(** ** The prediction label *)

Lemma render_predictions w : view_predictions (render w) = [prediction_span w].
Proof. unfold render. destruct (mode w), (isCameraOn w); done. Qed.

Lemma json_settled_prediction id data w :
  prediction (json_settled id (Resolved data) w)
  = if truthy (field data "body_pose") then field data "body_pose"
    else if truthy (field data "hand_gesture") then field data "hand_gesture"
    else prediction w.
Proof.
  unfold json_settled, use_data, field, get_prop, setPrediction.
  destruct data; simpl; try done; repeat case_match; simplify_eq/=; done.
Qed.

Lemma step_frame w ev :
  trace (step w ev) = trace (handle w ev)
  ∧ hook_state (step w ev) = hook_state (handle w ev)
  ∧ tasks (step w ev) = tasks (handle w ev)
  ∧ nextTask (step w ev) = nextTask (handle w ev).
Proof.
  unfold step, hook_state.
  by destruct (commit_frame (handle w ev)) as (-> & -> & -> &_&_&_& -> & -> &_& ->).
Qed.

Lemma step_json_prediction w id data :
  tasks w !! id = Some AwaitJson →
  prediction (step w (JsonSettled id (Resolved data))) = label_after data (prediction w).
Proof.
  intros Ht. destruct (step_frame w (JsonSettled id (Resolved data))) as (_ & Hh & _).
  injection Hh as -> _ _. simpl. rewrite Ht. apply json_settled_prediction.
Qed.

(** C4.  When response.json() resolves with [data], the prediction becomes
    data.body_pose if that is truthy, otherwise data.hand_gesture if that is
    truthy, and otherwise stays what it was.  Every render of a reachable
    world, before and after the response, shows exactly one prediction span;
    its child is the prediction, or "N/A" when the prediction is the empty
    string. *)
Theorem prediction_follows_response (w : World) (id : nat) (data : value) :
  reachable w → tasks w !! id = Some AwaitJson →
  let w' := step w (JsonSettled id (Resolved data)) in
  let hand_gesture := field data "hand_gesture" in
  let body_pose := field data "body_pose" in
  (truthy body_pose = true → prediction w' = body_pose)
  ∧ (truthy body_pose = false → truthy hand_gesture = true →
     prediction w' = hand_gesture)
  ∧ (truthy body_pose = false → truthy hand_gesture = false →
     prediction w' = prediction w)
  ∧ ∀ u, u = w ∨ u = w' →
         (prediction u = VString "" → view_predictions (render u) = [VString "N/A"])
         ∧ (prediction u ≠ VString "" → view_predictions (render u) = [prediction u]).
Proof.
  intros Hr Ht w' hand_gesture body_pose.
  pose proof (step_json_prediction w id data Ht) as Hp.
  fold w' in Hp. unfold label_after in Hp. fold hand_gesture body_pose in Hp.
  split; [|split; [|split]].
  - intros Hb. by rewrite Hp, Hb.
  - intros Hb Hh. by rewrite Hp, Hb, Hh.
  - intros Hb Hh. by rewrite Hp, Hb, Hh.
  - intros u Hu.
    assert (Hok : prediction_ok u).
    { apply reachable_prediction_ok. destruct Hu as [->| ->]; [done|].
      by apply reachable_step. }
    rewrite render_predictions. unfold prediction_span, js_or. split.
    + intros He. by rewrite He.
    + intros Hne. destruct Hok as [?| ->]; done.
Qed.

Lemma answered_reachable : reachable answered.
Proof. unfold answered. apply reachable_step, posted_reachable. Qed.

Lemma prediction_follows_response_witness :
  prediction (step answered (JsonSettled 1 (Resolved both_labels)))
    = VString "araimandi"
  ∧ view_predictions (render (step answered (JsonSettled 1 (Resolved both_labels))))
    = [VString "araimandi"].
Proof.
  destruct (prediction_follows_response answered 1 both_labels
              answered_reachable eq_refl) as (Hb & _ & _ & Hshow).
  split; [exact (Hb eq_refl)|].
  destruct (Hshow _ (or_intror eq_refl)) as [_ Hlabel].
  rewrite Hlabel; rewrite (Hb eq_refl); [reflexivity | discriminate].
Defined.

(** ** Failures *)

(** C3.  When the fetch of an upload rejects, or the reading of its body as
    JSON rejects, the world afterwards is the world before with one
    console.error entry added and the upload's task gone: the prediction and
    the rest of the component state are unchanged, no request is sent again,
    no timer is set, nothing remains pending for the upload. *)
Theorem failed_upload_only_logs (w : World) (id : nat) (error : Error) (ev : Event) :
  reachable w →
  (tasks w !! id = Some AwaitFetch ∧ ev = FetchSettled id (Rejected error))
  ∨ (tasks w !! id = Some AwaitJson ∧ ev = JsonSettled id (Rejected error)) →
  step w ev = finish id (console_error "Error fetching prediction:" error w)
  ∧ trace (step w ev) = trace w ++ [fetch_error_log error]
  ∧ hook_state (step w ev) = hook_state w
  ∧ requests_sent (step w ev) = requests_sent w
  ∧ timers (step w ev) = timers w
  ∧ tasks (step w ev) = delete id (tasks w).
Proof.
  intros Hr Hev. destruct (reachable_timers_ok w Hr) as [_ Hs].
  assert (He : step w ev = finish id (console_error "Error fetching prediction:" error w)).
  { unfold step. destruct Hev as [[Ht ->]|[Ht ->]]; simpl; rewrite Ht; simpl;
      by apply commit_synced_id. }
  rewrite He. repeat split. unfold requests_sent. simpl.
  rewrite omap_app. simpl. by rewrite app_nil_r.
Qed.

Lemma failed_upload_only_logs_witness :
  step posted (FetchSettled 1 (Rejected net_down))
    = finish 1 (console_error "Error fetching prediction:" net_down posted)
  ∧ step answered (JsonSettled 1 (Rejected net_down))
    = finish 1 (console_error "Error fetching prediction:" net_down answered).
Proof.
  split.
  - refine (proj1 (failed_upload_only_logs posted 1 net_down _ posted_reachable _)).
    left. split; reflexivity.
  - refine (proj1 (failed_upload_only_logs answered 1 net_down _ answered_reachable _)).
    right. split; reflexivity.
Defined.

(** ** startCamera *)

Lemma reachable_media_ok w : reachable w → media_ok w.
Proof.
  revert w. apply reachable_invariant.
  - intros v c id. simpl. by rewrite lookup_empty.
  - intros w ev Hok id'. destruct (handle_trace w ev) as (es & He & _).
    rewrite He, elem_of_app. revert es He.
    destruct ev; handle_cases; intros es He;
      rewrite ?lookup_insert, ?lookup_delete; repeat case_decide;
      try done; try (intros Hl; left; exact (Hok _ Hl));
      intros _; right; apply app_inv_head in He; subst es; by left.
  - intros w. unfold media_ok.
    by destruct (commit_frame w) as (_&_&_&_&_&_& -> & _ & _ & ->).
Qed.

Lemma handle_turns_camera_on w ev :
  isCameraOn w = false → isCameraOn (handle w ev) = true →
  ∃ id stream, ev = UserMediaSettled id (Resolved stream)
               ∧ tasks w !! id = Some AwaitUserMedia.
Proof.
  intros Hoff. destruct ev; handle_cases; intros Hon; try congruence.
  by eexists _, _.
Qed.

(** C6.  startCamera itself only calls getUserMedia({ video: true }) and
    waits.  isCameraOn becomes true when that promise resolves; no other
    event of the component's life turns it from false to true, and a
    promise awaited this way always comes from such a call.  When the
    promise rejects, the error is logged with console.error and isCameraOn,
    prediction and mode are as before (as is all the rest). *)
Theorem startCamera_turns_on_only_after_stream (w : World) :
  reachable w →
  (hook_state (startCamera w) = hook_state w
   ∧ trace (startCamera w) = trace w ++ [GetUserMedia true]
   ∧ tasks (startCamera w) !! nextTask w = Some AwaitUserMedia)
  ∧ (∀ id stream, tasks w !! id = Some AwaitUserMedia →
       GetUserMedia true ∈ trace w
       ∧ isCameraOn (step w (UserMediaSettled id (Resolved stream))) = true)
  ∧ (∀ ev, isCameraOn w = false → isCameraOn (step w ev) = true →
       ∃ id stream, ev = UserMediaSettled id (Resolved stream)
                    ∧ tasks w !! id = Some AwaitUserMedia)
  ∧ (∀ id error, tasks w !! id = Some AwaitUserMedia →
       let w' := step w (UserMediaSettled id (Rejected error)) in
       w' = finish id (console_error "Error accessing webcam:" error w)
       ∧ trace w' = trace w ++ [Console Err "Error accessing webcam:" (Some error)]
       ∧ hook_state w' = hook_state w).
Proof.
  intros Hr. destruct (reachable_timers_ok w Hr) as [_ Hs].
  split; [|split; [|split]].
  - unfold startCamera, hook_state. simpl. by rewrite lookup_insert_eq.
  - intros id stream Ht. split; [by apply (reachable_media_ok w Hr id)|].
    unfold step. destruct (commit_frame (handle w (UserMediaSettled id (Resolved stream))))
      as (_ & -> & _). simpl. by rewrite Ht.
  - intros ev Hoff. unfold step.
    destruct (commit_frame (handle w ev)) as (_ & -> & _).
    by apply handle_turns_camera_on.
  - intros id error Ht w'.
    assert (He : w' = finish id (console_error "Error accessing webcam:" error w)).
    { unfold w', step. simpl. rewrite Ht. simpl. by apply commit_synced_id. }
    by rewrite He.
Qed.

Lemma asked_reachable : reachable asked.
Proof. unfold asked. apply reachable_step, reachable_init. Qed.

Lemma startCamera_turns_on_only_after_stream_witness :
  isCameraOn asked = false
  ∧ isCameraOn (step asked (UserMediaSettled 0 (Resolved [7; 8]))) = true
  ∧ hook_state (step asked (UserMediaSettled 0 (Rejected net_down)))
    = hook_state asked.
Proof.
  destruct (startCamera_turns_on_only_after_stream asked asked_reachable)
    as (_ & Hon & _ & Hrej).
  split; [reflexivity|]. split.
  - exact (proj2 (Hon 0 [7; 8] eq_refl)).
  - exact (proj2 (proj2 (Hrej 0 net_down eq_refl))).
Defined.

(** ** captureAndSendFrame *)

(** C10.  When the video ref, the canvas ref or the 2d context is missing,
    captureAndSendFrame returns the world untouched.  When toBlob hands the
    callback null, for this upload or any other, no request is sent and
    prediction, isCameraOn and mode are as before; the upload then has
    nothing pending. *)
Theorem captureAndSendFrame_guards (w : World) (m : Mode) :
  ((videoRef w = None ∨ canvasRef w = None
    ∨ ∃ canvas, canvasRef w = Some canvas ∧ canvas_2d canvas = false) →
   captureAndSendFrame m w = w)
  ∧ (∀ id, requests_sent (step w (BlobReady id None)) = requests_sent w
           ∧ hook_state (step w (BlobReady id None)) = hook_state w)
  ∧ requests_sent (upload m None w) = requests_sent w
  ∧ hook_state (upload m None w) = hook_state w
  ∧ (tasks w !! nextTask w = None → tasks (upload m None w) = tasks w).
Proof.
  split; [|split].
  - unfold captureAndSendFrame. intros [->|[Hc|(canvas & -> & ->)]]; [done| |].
    + rewrite Hc. by destruct (videoRef w).
    + by destruct (videoRef w).
  - intros id. unfold requests_sent.
    destruct (step_frame w (BlobReady id None)) as (-> & -> & _).
    simpl. by repeat case_match.
  - unfold upload, requests_sent.
    destruct (step_frame (captureAndSendFrame m w) (BlobReady (nextTask w) None))
      as (-> & -> & -> & _).
    unfold captureAndSendFrame.
    destruct (videoRef w), (canvasRef w) as [[? ? []]|]; simpl;
      rewrite ?lookup_insert_eq; simpl;
      try (repeat case_match; repeat split; done).
    rewrite <- !app_assoc, omap_app. simpl. rewrite app_nil_r.
    repeat split. intros Hnone. rewrite delete_insert_eq. by apply delete_id.
Qed.

Lemma captureAndSendFrame_guards_witness :
  captureAndSendFrame Hand (set_refs None (Some canvas0) camera_on)
    = set_refs None (Some canvas0) camera_on
  ∧ tasks (upload Hand None camera_on) = tasks camera_on.
Proof.
  destruct (captureAndSendFrame_guards (set_refs None (Some canvas0) camera_on) Hand)
    as (Hearly & _).
  destruct (captureAndSendFrame_guards camera_on Hand) as (_ & _ & _ & _ & Hnull).
  split; [apply Hearly; by left | apply Hnull; reflexivity].
Defined.

(** C2, as the code has it.  With both refs and the 2d context present and
    a blob encoded, an invocation of captureAndSendFrame draws the video
    onto the canvas at (0, 0) in the canvas's size, encodes the canvas as
    image/jpeg, and POSTs the blob as the form entry "file" with filename
    "frame.jpg" to the endpoint of the closure's mode, in this order.  When
    the fetch resolves, the next step is reading the response body as JSON,
    and whatever that gives, nothing but a console.error can follow; when
    the fetch rejects, the body is never read and the error is logged. *)
Theorem captureAndSendFrame_steps
    (w : World) (m : Mode) (video : Video) (canvas : Canvas) (blob : Blob) :
  videoRef w = Some video → canvasRef w = Some canvas → canvas_2d canvas = true →
  let id := nextTask w in
  let posted := upload m (Some blob) w in
  let steps :=
    [DrawImage 0 0 (canvas_width canvas) (canvas_height canvas);
     ToBlob "image/jpeg"; Fetch (frame_request m blob)] in
  trace posted = trace w ++ steps
  ∧ (∀ response,
       let read := step posted (FetchSettled id (Resolved response)) in
       trace read = trace w ++ steps ++ [ReadJson]
       ∧ ∀ r, trace (step read (JsonSettled id r)) = trace read
              ∨ ∃ error, trace (step read (JsonSettled id r))
                         = trace read ++ [fetch_error_log error])
  ∧ (∀ error,
       trace (step posted (FetchSettled id (Rejected error)))
       = trace w ++ steps ++ [fetch_error_log error]).
Proof.
  intros Hv Hc H2d id posted steps.
  assert (Hposted : trace posted = trace w ++ steps
                    ∧ tasks posted !! id = Some AwaitFetch).
  { unfold posted, upload.
    destruct (step_frame (captureAndSendFrame m w) (BlobReady (nextTask w) (Some blob)))
      as (-> & _ & -> & _).
    unfold captureAndSendFrame. rewrite Hv, Hc, H2d. simpl.
    rewrite lookup_insert_eq. simpl. rewrite lookup_insert_eq.
    by rewrite <- !app_assoc. }
  destruct Hposted as [Htr Htask]. split; [done|]. split.
  - intros response read.
    assert (Hread : trace read = trace w ++ steps ++ [ReadJson]
                    ∧ tasks read !! id = Some AwaitJson).
    { unfold read.
      destruct (step_frame posted (FetchSettled id (Resolved response)))
        as (-> & _ & -> & _).
      simpl. rewrite Htask. simpl. rewrite lookup_insert_eq, Htr.
      by rewrite <- !app_assoc. }
    destruct Hread as [Hread Htask']. split; [done|]. intros r.
    destruct (step_frame read (JsonSettled id r)) as (-> & _). simpl.
    rewrite Htask'. unfold json_settled, use_data, get_prop, setPrediction.
    repeat case_match; simplify_eq/=; eauto.
  - intros error.
    destruct (step_frame posted (FetchSettled id (Rejected error))) as (-> & _).
    simpl. rewrite Htask. simpl. rewrite Htr. by rewrite <- !app_assoc.
Qed.

Lemma captureAndSendFrame_steps_witness :
  trace (upload Body (Some blob0) camera_on)
  = trace camera_on
    ++ [DrawImage 0 0 640 480; ToBlob "image/jpeg"; Fetch (frame_request Body blob0)].
Proof.
  exact (proj1 (captureAndSendFrame_steps camera_on Body
                  {| srcObject := Some [7; 8] |} canvas0 blob0
                  eq_refl eq_refl eq_refl)).
Defined.

(** C2 as stated fails: refs, context and blob are all there, the fetch
    rejects (server down), and the upload ends after draw, encode, POST and
    a console.error; the response body is never read. *)
Lemma captureAndSendFrame_steps_counterexample :
  let w' := step (upload Hand (Some blob0) camera_on)
                 (FetchSettled (nextTask camera_on) (Rejected net_down)) in
  videoRef camera_on = Some {| srcObject := Some [7; 8] |}
  ∧ canvasRef camera_on = Some canvas0
  ∧ canvas_2d canvas0 = true
  ∧ trace w'
    = trace camera_on
      ++ [DrawImage 0 0 640 480; ToBlob "image/jpeg";
          Fetch (frame_request Hand blob0); fetch_error_log net_down]
  ∧ (ReadJson ∉ trace w')
  ∧ tasks w' = ∅.
Proof.
  repeat split; try (vm_compute; reflexivity).
  intros Hin. apply list_elem_of_In in Hin. vm_compute in Hin.
  repeat (destruct Hin as [Hin|Hin]; [discriminate|]). exact Hin.
Qed.

(** ** Uploads among other events *)

Lemma handle_other_task w ev id p :
  tasks_ok w → tasks w !! id = Some p → addressed ev ≠ Some id →
  tasks (handle w ev) !! id = Some p.
Proof.
  intros Hok Ht Hne. pose proof (Hok _ _ Ht) as Hlt.
  destruct ev; simpl in Hne; handle_cases; try done;
    rewrite ?lookup_insert, ?lookup_delete; repeat case_decide;
    try done; try lia; congruence.
Qed.

Lemma run_other_task w evs id p :
  reachable w → tasks w !! id = Some p →
  Forall (λ ev, addressed ev ≠ Some id) evs →
  tasks (run w evs) !! id = Some p.
Proof.
  intros Hr Ht Hall. revert w Hr Ht.
  induction Hall as [|ev evs Hne _ IH]; intros w Hr Ht; [done|].
  simpl. apply IH; [by apply reachable_step|].
  destruct (step_frame w ev) as (_ & _ & -> & _).
  apply handle_other_task; [by apply reachable_tasks_ok|done..].
Qed.

Lemma reachable_capture_timer w tid t m :
  reachable w → timers w !! tid = Some t → timer_cb t = CaptureAndSendFrame m →
  t = interval_timer (mode w) ∧ mounted w = true ∧ isCameraOn w = true.
Proof.
  intros Hr Ht Hcb. destruct (reachable_timers_ok w Hr) as [[H1 H2 H3 H4] Hs].
  destruct (timer_repeat t) eqn:Hrep.
  - destruct (H3 _ _ Ht Hrep) as (Hm & Hd & Hi).
    destruct (H2 Hm Hd) as (id & Hi' & Ht'). rewrite (Hs Hm) in *. simpl in *.
    split; [congruence|done].
  - destruct (H4 _ _ Ht Hrep) as (s & Hs'). congruence.
Qed.

(** C5.  In every reachable world the closure a timer holds was made with
    the current mode, so an upload that starts when the timer fires is
    POSTed to the endpoint of the mode at that moment, whatever else
    happens before toBlob is done: the hand URL in hand mode, the body URL
    in body mode. *)
Theorem endpoint_follows_mode
    (w : World) (tid : nat) (t : Timer) (m : Mode)
    (video : Video) (canvas : Canvas) (evs : list Event) (blob : Blob) :
  reachable w →
  timers w !! tid = Some t → timer_cb t = CaptureAndSendFrame m →
  videoRef w = Some video → canvasRef w = Some canvas → canvas_2d canvas = true →
  Forall (λ ev, addressed ev ≠ Some (nextTask w)) evs →
  let started := step w (TimerFire tid) in
  let later := run started evs in
  let posted := step later (BlobReady (nextTask w) (Some blob)) in
  m = mode w
  ∧ (∃ r, requests_sent posted = requests_sent later ++ [r]
          ∧ req_url r = endpoint (mode w)
          ∧ req_url r = match mode w with
                        | Hand => "http://localhost:8000/predict/hand/"
                        | Body => "http://localhost:8000/predict/body/"
                        end).
Proof.
  intros Hr Ht Hcb Hv Hc H2d Hevs started later posted.
  destruct (reachable_capture_timer w tid t m Hr Ht Hcb) as (-> & Hm & Hon).
  injection Hcb as <-. split; [done|].
  assert (Hstarted : tasks started !! nextTask w = Some (AwaitBlob (mode w))).
  { unfold started. destruct (step_frame w (TimerFire tid)) as (_ & _ & -> & _).
    simpl. rewrite Ht. simpl. unfold captureAndSendFrame. rewrite Hv, Hc, H2d.
    simpl. by rewrite lookup_insert_eq. }
  assert (Hlater : tasks later !! nextTask w = Some (AwaitBlob (mode w))).
  { apply run_other_task; [by apply reachable_step|done..]. }
  exists (frame_request (mode w) blob). split; [|split; [done|by destruct (mode w)]].
  unfold posted, requests_sent.
  destruct (step_frame later (BlobReady (nextTask w) (Some blob))) as (-> & _).
  simpl. rewrite Hlater. simpl. by rewrite omap_app.
Qed.

Lemma body_camera_reachable : reachable body_camera.
Proof. unfold body_camera. apply reachable_step, camera_on_reachable. Qed.

Lemma endpoint_follows_mode_witness :
  ∃ r, requests_sent
         (step (run (step body_camera (TimerFire 3)) [ClickMode Hand])
               (BlobReady 1 (Some blob0)))
       = requests_sent (run (step body_camera (TimerFire 3)) [ClickMode Hand]) ++ [r]
       ∧ req_url r = "http://localhost:8000/predict/body/".
Proof.
  destruct (endpoint_follows_mode body_camera 3 (interval_timer Body) Body
              {| srcObject := Some [7; 8] |} canvas0 [ClickMode Hand] blob0
              body_camera_reachable eq_refl eq_refl eq_refl eq_refl eq_refl)
    as (_ & r & Hsent & _ & Hurl).
  - repeat constructor. discriminate.
  - exists r. split; [exact Hsent | exact Hurl].
Defined.

(** ** No coordination between uploads *)

Section Rounds.
(** The interval timer [tid] keeps firing; the refs are in place and
    every frame is encoded to [blob]. *)
Variables (tid : nat) (video : Video) (canvas : Canvas) (blob : Blob).
Hypothesis canvas_has_2d : canvas_2d canvas = true.

Lemma round_spec w :
  ready tid video canvas w →
  let w' := run w [TimerFire tid; BlobReady (nextTask w) (Some blob)] in
  ready tid video canvas w' ∧ mode w' = mode w
  ∧ nextTask w' = S (nextTask w)
  ∧ requests_sent w' = requests_sent w ++ [frame_request (mode w) blob]
  ∧ tasks w' = <[nextTask w := AwaitFetch]> (tasks w).
Proof.
  intros (Hr & Ht & Hv & Hc) w'.
  destruct (reachable_timers_ok w Hr) as [_ Hs].
  assert (He : w' = blobCallback (nextTask w) (mode w) (Some blob)
                      (captureAndSendFrame (mode w) w)).
  { unfold w', run. simpl. unfold step at 2. simpl. rewrite Ht. simpl.
    rewrite commit_synced_id by by apply captureAndSendFrame_synced.
    unfold step, captureAndSendFrame. rewrite Hv, Hc, canvas_has_2d. simpl.
    rewrite lookup_insert_eq. by apply commit_synced_id. }
  split; [split; [by apply reachable_run|]|]; rewrite He;
    unfold captureAndSendFrame; rewrite Hv, Hc, canvas_has_2d; [done|].
  unfold requests_sent. simpl. rewrite <- !app_assoc, omap_app. simpl.
  by rewrite insert_insert_eq.
Qed.

Lemma rounds_spec n : ∀ w,
  ready tid video canvas w →
  let w' := run w (rounds tid blob (nextTask w) n) in
  requests_sent w' = requests_sent w ++ replicate n (frame_request (mode w) blob)
  ∧ (∀ k, k < n → tasks w' !! (nextTask w + k) = Some AwaitFetch)
  ∧ (∀ id p, tasks w !! id = Some p → tasks w' !! id = Some p).
Proof.
  induction n as [|n IH]; intros w Hw.
  - simpl. rewrite app_nil_r. repeat split; [lia|done].
  - destruct (round_spec w Hw) as (Hw1 & Hm1 & Hn1 & Hreq1 & Htask1).
    change (run w (rounds tid blob (nextTask w) (S n)))
      with (run (run w [TimerFire tid; BlobReady (nextTask w) (Some blob)])
                (rounds tid blob (S (nextTask w)) n)).
    set (w1 := run w [TimerFire tid; BlobReady (nextTask w) (Some blob)]) in *.
    destruct (IH w1 Hw1) as (Hreq & Hnew & Hold).
    rewrite Hn1 in Hreq, Hnew, Hold.
    split; [|split].
    + rewrite Hreq, Hreq1, Hm1, <- app_assoc. done.
    + intros [|k] Hk.
      * apply Hold. rewrite Htask1, Nat.add_0_r. apply lookup_insert_eq.
      * replace (nextTask w + S k) with (S (nextTask w) + k) by lia.
        apply Hnew. lia.
    + intros id p Hid. apply Hold. rewrite Htask1, lookup_insert_ne; [done|].
      destruct Hw as (Hr & _).
      pose proof (reachable_tasks_ok w Hr id p Hid). lia.
Qed.
End Rounds.

(** C8.  No backpressure: with the camera on and the refs in place, every
    firing of the interval timer starts a new upload and POSTs its frame
    whatever is still in flight; after [n] firings without any response, [n]
    more requests have been sent and all [n] are awaiting their responses at
    once, next to everything that was pending before.  No ordering: two
    responses being read complete in either order, each completion applies
    its own label to the prediction without looking at the other, so when
    both carry a label the one that completes last is the one displayed. *)
Theorem uploads_are_uncoordinated (w : World) :
  reachable w →
  (∀ tid video canvas blob n,
     timers w !! tid = Some (interval_timer (mode w)) →
     videoRef w = Some video → canvasRef w = Some canvas → canvas_2d canvas = true →
     let w' := run w (rounds tid blob (nextTask w) n) in
     requests_sent w' = requests_sent w ++ replicate n (frame_request (mode w) blob)
     ∧ (∀ k, k < n → tasks w' !! (nextTask w + k) = Some AwaitFetch)
     ∧ (∀ id p, tasks w !! id = Some p → tasks w' !! id = Some p))
  ∧ (∀ i j di dj,
       i ≠ j → tasks w !! i = Some AwaitJson → tasks w !! j = Some AwaitJson →
       prediction (run w [JsonSettled i (Resolved di); JsonSettled j (Resolved dj)])
       = label_after dj (label_after di (prediction w))
       ∧ prediction (run w [JsonSettled j (Resolved dj); JsonSettled i (Resolved di)])
         = label_after di (label_after dj (prediction w))).
Proof.
  intros Hr. split.
  - intros tid video canvas blob n Ht Hv Hc H2d.
    by apply (rounds_spec tid video canvas blob H2d).
  - intros i j di dj Hne Hi Hj. simpl. split.
    + rewrite step_json_prediction, step_json_prediction; [done..|].
      apply run_other_task with (evs := [_]); [done..|].
      repeat constructor. simpl. congruence.
    + rewrite step_json_prediction, step_json_prediction; [done..|].
      apply run_other_task with (evs := [_]); [done..|].
      repeat constructor. simpl. congruence.
Qed.

Lemma two_answered_reachable : reachable two_answered.
Proof. apply reachable_run, camera_on_reachable. Qed.

Lemma uploads_are_uncoordinated_witness :
  length (requests_sent (run two_answered (rounds 2 blob0 3 3))) = 5
  ∧ prediction (run two_answered [JsonSettled 1 (Resolved says_pataka);
                                  JsonSettled 2 (Resolved says_mushti)])
    = VString "mushti"
  ∧ prediction (run two_answered [JsonSettled 2 (Resolved says_mushti);
                                  JsonSettled 1 (Resolved says_pataka)])
    = VString "pataka".
Proof.
  destruct (uploads_are_uncoordinated two_answered two_answered_reachable)
    as [Hflood Horder].
  destruct (Hflood 2 {| srcObject := Some [7; 8] |} canvas0 blob0 3
              eq_refl eq_refl eq_refl eq_refl) as (Hsent & _).
  destruct (Horder 1 2 says_pataka says_mushti) as [H12 H21];
    [discriminate | reflexivity | reflexivity |].
  split; [|split].
  - change (rounds 2 blob0 3 3) with (rounds 2 blob0 (nextTask two_answered) 3).
    rewrite Hsent. reflexivity.
  - rewrite H12. reflexivity.
  - rewrite H21. reflexivity.
Defined.

(** * Beyond the claims *)

(** ** ErrorBoundary (root route, lines 154-183 of the root module)

    What reaches the boundary is told apart the way the function does:
    a value [isRouteErrorResponse] accepts (it has a numeric status and a
    statusText string), an instance of [Error], or anything else.
    [DEV] is [import.meta.env.DEV]. *)

Inductive Thrown : Type :=
  | RouteErrorResponse (status : Z) (statusText : string)
  | ErrorInstance (message : string) (stack : option string)
  | OtherValue (v : value).

Definition isRouteErrorResponse (error : Thrown) : bool :=
  match error with RouteErrorResponse _ _ => true | _ => false end.

(** What the boundary renders: the [h1], the [p], and the [pre] when it is
    there. *)
Record ErrorPage := {
  page_h1 : string;
  page_p : string;
  page_pre : option string
}.

(** [x || y] on strings. *)
Definition or_string (x y : string) : string :=
  if String.eqb x "" then y else x.

Definition ErrorBoundary (DEV : bool) (error : Thrown) : ErrorPage :=
  let message := "Oops!" in
  let details := "An unexpected error occurred." in
  let stack : option string := None in
  let '(message, details, stack) :=
    match error with
    | RouteErrorResponse status statusText =>
        (if Z.eqb status 404 then "404" else "Error",
         if Z.eqb status 404
         then "The requested page could not be found."
         else or_string statusText details,
         stack)
    | ErrorInstance error_message error_stack =>
        if DEV then (message, error_message, error_stack)
        else (message, details, stack)
    | OtherValue _ => (message, details, stack)
    end in
  {| page_h1 := message;
     page_p := details;
     (* {stack && <pre>...</pre>} *)
     page_pre := match stack with
                 | Some s => if String.eqb s "" then None else Some s
                 | None => None
                 end |}.

Definition generic_page : ErrorPage :=
  {| page_h1 := "Oops!"; page_p := "An unexpected error occurred.";
     page_pre := None |}.

(** X1.  Outside development, whatever was thrown that is not a route
    error response gives the same generic page: neither the message nor
    the stack of an Error reaches it. *)
Theorem ErrorBoundary_production_page_is_generic (error : Thrown) :
  isRouteErrorResponse error = false →
  ErrorBoundary false error = generic_page.
Proof. by destruct error. Qed.

Lemma ErrorBoundary_production_page_is_generic_witness :
  ErrorBoundary false (ErrorInstance "db password rejected" (Some "at connect (db.ts:3)"))
  = generic_page.
Proof.
  exact (ErrorBoundary_production_page_is_generic
           (ErrorInstance "db password rejected" (Some "at connect (db.ts:3)")) eq_refl).
Defined.

(** X2.  The stack block is on the page exactly when the build is a
    development build, the error is an instance of Error, and its stack is
    a non-empty string; it then shows that stack.  A route error response
    never shows one. *)
Theorem ErrorBoundary_stack_only_in_dev (DEV : bool) (error : Thrown) (s : string) :
  page_pre (ErrorBoundary DEV error) = Some s
  ↔ DEV = true ∧ s ≠ "" ∧ ∃ message, error = ErrorInstance message (Some s).
Proof.
  split.
  - destruct error as [status statusText|message [stack|]|v], DEV; simpl; try done.
    destruct (String.eqb stack "") eqn:He; [done|]. intros [= ->].
    apply String.eqb_neq in He. eauto.
  - intros (-> & Hne & message & ->). simpl.
    apply String.eqb_neq in Hne. by rewrite Hne.
Qed.


(** ** GestureRecognition: what else the event loop shows *)

Lemma truthy_label_after data old :
  truthy old = true → truthy (label_after data old) = true.
Proof. unfold label_after. intros Ho. by repeat case_match. Qed.

Lemma handle_prediction w ev :
  prediction (handle w ev) = prediction w
  ∨ ∃ id data, ev = JsonSettled id (Resolved data)
               ∧ tasks w !! id = Some AwaitJson
               ∧ prediction (handle w ev) = label_after data (prediction w).
Proof.
  destruct ev as [| | | | | |id [data|error]| |];
    try (left; handle_cases; done).
  simpl. destruct (tasks w !! id) as [[]|] eqn:Ht; try by left.
  right. exists id, data. split; [done|]. split; [done|].
  apply json_settled_prediction.
Qed.

(** X4.  The prediction changes only when a response body has been parsed:
    any step after which the prediction differs is the resolution of a
    pending response.json(), and the new value is that response's label.
    Closing the camera, switching mode, unmounting, failures and timers
    leave the label as it is. *)
Theorem prediction_changes_only_on_response (w : World) (ev : Event) :
  prediction (step w ev) ≠ prediction w →
  ∃ id data, ev = JsonSettled id (Resolved data)
             ∧ tasks w !! id = Some AwaitJson
             ∧ prediction (step w ev) = label_after data (prediction w).
Proof.
  unfold step. destruct (commit_frame (handle w ev)) as (-> & _).
  destruct (handle_prediction w ev) as [->|?]; done.
Qed.

Lemma prediction_changes_only_on_response_witness :
  ∃ id data, JsonSettled 1 (Resolved says_pataka) = JsonSettled id (Resolved data)
             ∧ tasks answered !! id = Some AwaitJson
             ∧ prediction (step answered (JsonSettled 1 (Resolved says_pataka)))
               = label_after data (prediction answered).
Proof.
  apply (prediction_changes_only_on_response answered
           (JsonSettled 1 (Resolved says_pataka))).
  vm_compute. discriminate.
Defined.

(** X5.  Once a label is on the screen it is never taken off: if the
    prediction is truthy, then after any sequence of events it is still
    truthy and the render shows it, not "N/A". *)
Theorem shown_label_is_never_cleared (w : World) (evs : list Event) :
  truthy (prediction w) = true →
  truthy (prediction (run w evs)) = true
  ∧ view_predictions (render (run w evs)) = [prediction (run w evs)].
Proof.
  intros Hw.
  assert (Ht : truthy (prediction (run w evs)) = true).
  { revert w Hw. induction evs as [|ev evs IH]; intros w Hw; [done|].
    simpl. apply IH. unfold step.
    destruct (commit_frame (handle w ev)) as (-> & _).
    destruct (handle_prediction w ev) as [->|(id & data & _ & _ & ->)]; [done|].
    by apply truthy_label_after. }
  split; [done|]. rewrite render_predictions. unfold prediction_span, js_or.
  by rewrite Ht.
Qed.

Lemma shown_label_is_never_cleared_witness :
  truthy (prediction (run (set_prediction (VString "pataka") camera_on)
                          [ClickCamera; ClickMode Body; Unmount])) = true.
Proof.
  exact (proj1 (shown_label_is_never_cleared
                  (set_prediction (VString "pataka") camera_on)
                  [ClickCamera; ClickMode Body; Unmount] eq_refl)).
Defined.






(** X7.  closeCamera stops the tracks of the stream attached to the video
    element and no others: afterwards a track is stopped exactly when it was
    stopped before or belongs to that stream. *)
Theorem closeCamera_stops_exactly_the_attached_tracks (w : World) (t : TrackId) :
  t ∈ stopped (closeCamera w)
  ↔ t ∈ stopped w
    ∨ ∃ video stream,
        videoRef w = Some video ∧ srcObject video = Some stream ∧ t ∈ stream.
Proof.
  unfold closeCamera. destruct (videoRef w) as [[[stream|]]|] eqn:Hv; simpl.
  - rewrite foldl_track_stop. simpl. rewrite elem_of_union, elem_of_list_to_set.
    split.
    + intros [?|?]; [right|by left]. by exists {| srcObject := Some stream |}, stream.
    + intros [?|(video & stream' & [= <-] & [= <-] & ?)]; auto.
  - split; [by left|]. by intros [?|(video & stream' & [= <-] & ? & _)].
  - split; [by left|]. by intros [?|(video & stream' & ? & _)].
Qed.

(** X8.  A stream that is attached over another one takes its place without
    stopping it, and closeCamera then only knows the newer stream: a track
    of the replaced stream that the newer one does not share stays live. *)
Theorem replaced_stream_is_never_stopped
    (w : World) (video : Video) (older newer : MediaStream) (t : TrackId) :
  videoRef w = Some video → t ∈ older → t ∉ newer → t ∉ stopped w →
  let w' := closeCamera (attachStream newer (attachStream older w)) in
  (t ∉ stopped w')
  ∧ (∀ t', t' ∈ newer → t' ∈ stopped w')
  ∧ videoRef w' = Some {| srcObject := None |}
  ∧ isCameraOn w' = false.
Proof.
  intros Hv Hold Hnew Hlive w'.
  assert (He : stopped w' = list_to_set newer ∪ stopped w
               ∧ videoRef w' = Some {| srcObject := None |}
               ∧ isCameraOn w' = false).
  { unfold w', closeCamera, attachStream. rewrite Hv. simpl.
    by rewrite foldl_track_stop. }
  destruct He as (Hs & Hr & Hc). rewrite Hs. repeat split; try done.
  - rewrite elem_of_union, elem_of_list_to_set. by intros [?|?].
  - intros t' Ht'. rewrite elem_of_union, elem_of_list_to_set. by left.
Qed.

Lemma replaced_stream_is_never_stopped_witness :
  7 ∉ stopped (closeCamera (attachStream [9] (attachStream [7; 8] (init video0 canvas0)))).
Proof.
  refine (proj1 (replaced_stream_is_never_stopped (init video0 canvas0) video0
                   [7; 8] [9] 7 eq_refl _ _ _)).
  - apply list_elem_of_In. simpl. auto.
  - intros Hin. apply list_elem_of_In in Hin. simpl in Hin. intuition discriminate.
  - exact (not_elem_of_empty (C:=gset TrackId) 7).
Defined.

(** What [setTimeout(..., 100)] of startCamera puts in the timer table. *)
Definition attach_timer (stream : MediaStream) : Timer :=
  {| timer_repeat := false; timer_delay := 100; timer_cb := AttachStream stream |}.

Lemma closeCamera_keeps_ref w video :
  videoRef w = Some video → ∃ video', videoRef (closeCamera w) = Some video'.
Proof.
  intros Hv. unfold closeCamera. rewrite Hv.
  destruct (srcObject video); simpl; eauto.
Qed.

(** X9.  Closing the camera before the 100 ms timeout of startCamera has
    fired does not call the timeout off.  When it fires, the stream is
    attached to the video element although isCameraOn is false: the button
    reads "Open Camera", no capture is scheduled, and no track of the stream
    has been stopped by the close. *)
Theorem early_close_leaves_stream_attached
    (w : World) (tid : nat) (stream : MediaStream) (video : Video) :
  reachable w → mounted w = true → isCameraOn w = true →
  timers w !! tid = Some (attach_timer stream) →
  videoRef w = Some video →
  let w' := run w [ClickCamera; TimerFire tid] in
  isCameraOn w' = false
  ∧ videoRef w' = Some {| srcObject := Some stream |}
  ∧ stopped w' = stopped (closeCamera w)
  ∧ view_camera_label (render w') = "Open Camera"
  ∧ timers w' = delete tid (timers (step w ClickCamera))
  ∧ (∀ id t m, timers w' !! id = Some t → timer_cb t ≠ CaptureAndSendFrame m).
Proof.
  intros Hr Hm Hc Htid Hv w'.
  destruct (step_close_camera w Hr Hm Hc) as (id & Hi & Ht & Hstep).
  assert (Hne : id ≠ tid) by (intros ->; rewrite Htid in Ht; discriminate).
  destruct (closeCamera_keeps_ref w video Hv) as (video' & Hv').
  destruct (closeCamera_frame w) as (_ & _ & _ & _ & Hmo & Hmn).
  pose proof (closeCamera_timer_view w) as Hview. unfold timer_view in Hview.
  assert (Hts : timers (closeCamera w) = timers w) by congruence. clear Hview.
  assert (Hoff : isCameraOn (closeCamera w) = false) by done.
  assert (Hrun : w' = step (step w ClickCamera) (TimerFire tid)) by done.
  clearbody w'. subst w'. rewrite Hstep.
  remember (closeCamera w) as wc eqn:Hwc. clear Hwc Hstep.
  assert (He : step (set_effect (false, mode w) None (remove_timer id wc)) (TimerFire tid)
               = emit (Console Log "Camera started and video element found." None)
                   (set_refs (Some {| srcObject := Some stream |}) (canvasRef wc)
                      (remove_timer tid
                         (set_effect (false, mode w) None (remove_timer id wc))))).
  { unfold step, handle. simpl.
    rewrite Hts, lookup_delete_ne, Htid by done. simpl.
    unfold attachStream. simpl. rewrite Hv'. simpl.
    apply commit_synced_id. unfold synced. simpl. by rewrite Hoff, Hmo. }
  rewrite He. simpl.
  split; [done|]. split; [done|]. split; [done|]. split.
  - unfold render. simpl. rewrite Hoff, andb_false_r. done.
  - split; [done|]. intros id' t m. rewrite Hts.
    rewrite !lookup_delete. repeat case_decide; try done. intros Hl Hcb.
    destruct (reachable_capture_timer w id' t m Hr Hl Hcb) as (-> & _).
    destruct (reachable_timers_ok w Hr) as [[_ _ H3 _] _].
    destruct (H3 id' _ Hl eq_refl) as (_ & _ & ?). congruence.
Qed.

(** The stream has arrived, the camera is on, the timeout (timer 1) has
    not fired yet. *)
Definition streaming_soon : World :=
  run (init video0 canvas0) [ClickCamera; UserMediaSettled 0 (Resolved [7; 8])].

Lemma streaming_soon_reachable : reachable streaming_soon.
Proof. apply reachable_run, reachable_init. Qed.

Lemma early_close_leaves_stream_attached_witness :
  isCameraOn (run streaming_soon [ClickCamera; TimerFire 1]) = false
  ∧ videoRef (run streaming_soon [ClickCamera; TimerFire 1])
    = Some {| srcObject := Some [7; 8] |}
  ∧ stopped (run streaming_soon [ClickCamera; TimerFire 1])
    = stopped (closeCamera streaming_soon).
Proof.
  destruct (early_close_leaves_stream_attached streaming_soon 1 [7; 8] video0
              streaming_soon_reachable eq_refl eq_refl eq_refl eq_refl)
    as (Hoff & Hattached & Hlive & _).
  exact (conj Hoff (conj Hattached Hlive)).
Defined.

Lemma set_mode_same w : set_mode (mode w) w = w.
Proof. by destruct w. Qed.

(** X10.  The mode buttons and the interval.  Clicking the button of the
    mode that is already selected changes nothing, the running interval
    included.  Clicking the other one while the camera is on clears the
    running interval and arms a fresh one (a new timer id, so a new 1000 ms
    period) whose callback holds the new mode; the prediction and everything
    in flight are untouched. *)
Theorem mode_click_rearms_interval (w : World) (m : Mode) :
  reachable w → mounted w = true →
  (m = mode w → step w (ClickMode m) = w)
  ∧ (m ≠ mode w → isCameraOn w = true →
     ∀ tid, timers w !! tid = Some (interval_timer (mode w)) →
     let w' := step w (ClickMode m) in
     timers w' = <[nextTimer w := interval_timer m]> (delete tid (timers w))
     ∧ timers w' !! tid = None
     ∧ mode w' = m ∧ isCameraOn w' = true
     ∧ tasks w' = tasks w ∧ prediction w' = prediction w ∧ trace w' = trace w).
Proof.
  intros Hr Hm. destruct (reachable_timers_ok w Hr) as [[H1 H2 H3 H4] Hs].
  split.
  - intros ->. unfold step, handle. rewrite Hm. unfold setMode.
    rewrite set_mode_same. by apply commit_synced_id.
  - intros Hne Hc tid Ht w'.
    destruct (H3 tid _ Ht eq_refl) as (_ & _ & Hi).
    assert (He : w' = set_effect (true, m) (Some (nextTimer w))
                        (set_timers (<[nextTimer w := interval_timer m]>
                                       (delete tid (timers w)))
                                    (S (nextTimer w)) (set_mode m w))).
    { unfold w', step, handle. rewrite Hm. unfold setMode, commit. simpl.
      rewrite Hm, (Hs Hm), Hc. rewrite decide_False by congruence.
      unfold intervalCleanup, intervalEffect. simpl. rewrite Hi. simpl.
      by rewrite Hc. }
    rewrite He. simpl. repeat split; try done.
    rewrite lookup_insert_ne, lookup_delete_eq; [done|].
    apply H1 in Ht. lia.
Qed.

Lemma mode_click_rearms_interval_witness :
  step camera_on (ClickMode Hand) = camera_on
  ∧ timers (step camera_on (ClickMode Body)) !! 2 = None
  ∧ timers (step camera_on (ClickMode Body)) !! 3 = Some (interval_timer Body).
Proof.
  destruct (mode_click_rearms_interval camera_on Hand camera_on_reachable eq_refl)
    as [Hsame _].
  destruct (mode_click_rearms_interval camera_on Body camera_on_reachable eq_refl)
    as [_ Hother].
  destruct (Hother ltac:(discriminate) eq_refl 2 eq_refl) as (Hts & Hgone & _).
  split; [exact (Hsame eq_refl)|]. split; [exact Hgone|].
  rewrite Hts. reflexivity.
Defined.

Definition is_draw (e : Effect) : bool :=
  match e with DrawImage _ _ _ _ => true | _ => false end.

(** How many frames have been drawn onto the canvas so far. *)
Definition frames_drawn (w : World) : nat :=
  length (List.filter is_draw (trace w)).

Lemma frames_drawn_app w w' es :
  trace w' = trace w ++ es →
  frames_drawn w' = frames_drawn w + length (List.filter is_draw es).
Proof.
  unfold frames_drawn. intros ->. by rewrite List.filter_app, length_app.
Qed.

Lemma handle_draws_nothing w ev :
  (∀ tid, ev ≠ TimerFire tid) → frames_drawn (handle w ev) = frames_drawn w.
Proof.
  intros Hev. destruct (handle_trace w ev) as (es & He & _).
  rewrite (frames_drawn_app w _ es He). revert es He.
  destruct ev; try (by destruct (Hev id)); handle_cases; intros es He;
    rewrite <- ?app_assoc in He;
    first [ apply app_inv_head in He; subst es; simpl; lia
          | rewrite <- (app_nil_r (trace w)) in He at 1;
            apply app_inv_head in He; subst es; simpl; lia ].
Qed.

(** X11.  Frames are drawn by the interval timer alone, and only while the
    component is mounted with the camera on: a step after which one more
    frame has been drawn is a firing of the armed interval timer, and it
    draws exactly one.  Once the component is unmounted it stays unmounted
    and no frame is drawn ever again. *)
Theorem frames_are_drawn_only_while_camera_on (w : World) :
  reachable w →
  (∀ ev, frames_drawn (step w ev) ≠ frames_drawn w →
         mounted w = true ∧ isCameraOn w = true
         ∧ frames_drawn (step w ev) = S (frames_drawn w)
         ∧ ∃ tid, ev = TimerFire tid
                  ∧ timers w !! tid = Some (interval_timer (mode w)))
  ∧ (mounted w = false →
     ∀ evs, mounted (run w evs) = false
            ∧ frames_drawn (run w evs) = frames_drawn w).
Proof.
  intros Hr.
  assert (Hstep : ∀ u ev, reachable u →
            frames_drawn (step u ev) ≠ frames_drawn u →
            mounted u = true ∧ isCameraOn u = true
            ∧ frames_drawn (step u ev) = S (frames_drawn u)
            ∧ ∃ tid, ev = TimerFire tid
                     ∧ timers u !! tid = Some (interval_timer (mode u))).
  { clear w Hr. intros w ev Hr.
    assert (Hf : frames_drawn (step w ev) = frames_drawn (handle w ev)).
    { unfold frames_drawn. by destruct (step_frame w ev) as (-> & _). }
    rewrite Hf. clear Hf.
    destruct ev as [| |tid| | | | | |];
      try (intros Hd; destruct Hd; apply handle_draws_nothing; by intros ?).
    - simpl. destruct (timers w !! tid) as [[rep delay [m|s]]|] eqn:Ht; simpl;
        try done.
      + destruct (reachable_capture_timer w tid _ m Hr Ht eq_refl)
          as (Heq & Hm & Hc).
        injection Heq as -> -> ->. simpl. intros Hd.
        split; [done|]. split; [done|]. split; [|by exists tid].
        revert Hd. unfold frames_drawn, captureAndSendFrame.
        repeat case_match; simpl; try done. intros _.
        rewrite <- !app_assoc, List.filter_app, length_app. simpl. lia.
      + unfold frames_drawn, attachStream.
        destruct rep; repeat case_match; simpl;
          rewrite ?List.filter_app, ?length_app; simpl; intros; lia. }
  split; [intros ev; by apply Hstep|].
  intros Hm evs. revert w Hr Hm. induction evs as [|ev evs IH]; intros w Hr Hm;
    [done|].
  assert (Hm' : mounted (step w ev) = false).
  { unfold step. destruct (commit_frame (handle w ev)) as (_&_&_&_&_& -> & _).
    destruct ev; handle_cases; congruence. }
  assert (Hd : frames_drawn (step w ev) = frames_drawn w).
  { destruct (decide (frames_drawn (step w ev) = frames_drawn w)) as [|Hd]; [done|].
    destruct (Hstep w ev Hr Hd) as (? & _). congruence. }
  simpl. destruct (IH (step w ev) (reachable_step w ev Hr) Hm') as (-> & ->).
  done.
Qed.

Lemma frames_are_drawn_only_while_camera_on_witness :
  frames_drawn (run (step camera_on Unmount)
                    [TimerFire 2; ClickCamera; BlobReady 1 None; TimerFire 2])
  = frames_drawn (step camera_on Unmount).
Proof.
  destruct (frames_are_drawn_only_while_camera_on (step camera_on Unmount)
              (reachable_step _ _ camera_on_reachable)) as [_ Hgone].
  exact (proj2 (Hgone eq_refl _)).
Defined.











Lemma step_click_open w :
  synced w → mounted w = true → isCameraOn w = false →
  step w ClickCamera = startCamera w.
Proof.
  intros Hs Hm Hc. unfold step, handle, render. rewrite Hm, Hc, andb_false_r.
  simpl. apply commit_synced_id. unfold synced. simpl. done.
Qed.

(** X13.  Nothing holds back a second "Open Camera" click while the first
    getUserMedia call is still undecided: with the camera off, [n] clicks on
    the camera button make [n] calls of getUserMedia({ video: true }), all
    pending at once, and isCameraOn is still false. *)
Theorem open_clicks_are_not_debounced (w : World) (n : nat) :
  reachable w → mounted w = true → isCameraOn w = false →
  let w' := run w (replicate n ClickCamera) in
  trace w' = trace w ++ replicate n (GetUserMedia true)
  ∧ (∀ k, k < n → tasks w' !! (nextTask w + k) = Some AwaitUserMedia)
  ∧ isCameraOn w' = false.
Proof.
  intros Hr Hm Hc. destruct (reachable_timers_ok w Hr) as [_ Hs]. clear Hr.
  revert w Hs Hm Hc. induction n as [|n IH]; intros w Hs Hm Hc.
  - simpl. rewrite app_nil_r. repeat split; [lia|done].
  - change (run w (replicate (S n) ClickCamera))
      with (run (step w ClickCamera) (replicate n ClickCamera)).
    rewrite (step_click_open w Hs Hm Hc).
    destruct (IH (startCamera w)) as (Htr & Hpend & Hoff); try done.
    simpl in *. split; [|split; [|done]].
    + rewrite Htr. simpl. by rewrite <- app_assoc.
    + intros [|k] Hk.
      * rewrite Nat.add_0_r.
        assert (Hkeep : ∀ m u, tasks u !! nextTask w = Some AwaitUserMedia →
                  synced u → mounted u = true → isCameraOn u = false →
                  nextTask w < nextTask u →
                  tasks (run u (replicate m ClickCamera)) !! nextTask w
                  = Some AwaitUserMedia).
        { clear. induction m as [|m IHm]; intros u Hu Hs Hm Hc Hlt; [done|].
          change (run u (replicate (S m) ClickCamera))
            with (run (step u ClickCamera) (replicate m ClickCamera)).
          rewrite (step_click_open u Hs Hm Hc). apply IHm; simpl; try done.
          - rewrite lookup_insert_ne; [done|lia].
          - lia. }
        apply Hkeep; simpl; try done; [apply lookup_insert_eq|lia].
      * replace (nextTask w + S k) with (S (nextTask w) + k) by lia.
        apply Hpend. lia.
Qed.

Lemma open_clicks_are_not_debounced_witness :
  trace (run (init video0 canvas0) (replicate 3 ClickCamera))
  = [GetUserMedia true; GetUserMedia true; GetUserMedia true].
Proof.
  exact (proj1 (open_clicks_are_not_debounced (init video0 canvas0) 3
                  (reachable_init video0 canvas0) eq_refl eq_refl)).
Defined.

(** ** GestureRecognition: the class names of the render (lines 86-161) *)

Definition baseButtonClass : string :=
  "px-4 py-2 font-semibold rounded-lg transition-all duration-300".
Definition activeButtonClass : string := "bg-[#f54a00] text-white".
Definition inactiveButtonClass : string := "bg-gray-300 text-gray-800".

Definition bodyButtonClass (m : Mode) : string :=
  if decide (m = Body)
  then (baseButtonClass ++ " " ++ activeButtonClass)%string
  else (baseButtonClass ++ " " ++ inactiveButtonClass)%string.

Definition handButtonClass (m : Mode) : string :=
  if decide (m = Hand)
  then (baseButtonClass ++ " " ++ activeButtonClass)%string
  else (baseButtonClass ++ " " ++ inactiveButtonClass)%string.

Record Classes := {
  outer_class : string;          (* the root div *)
  card_class : option string;    (* the white card, in the second layout *)
  video_class : string;
  hand_button_class : string;
  body_button_class : string
}.

Definition render_classes (w : World) : Classes :=
  if bool_decide (mode w = Body) && isCameraOn w then
    {| outer_class :=
         "w-screen h-screen bg-gray-100 flex flex-col items-center justify-start p-4";
       card_class := None;
       video_class := "w-[80vw] h-[73vh] rounded-lg shadow-md";
       hand_button_class := handButtonClass (mode w);
       body_button_class := bodyButtonClass (mode w) |}
  else
    {| outer_class :=
         ("flex flex-col items-center justify-center bg-gray-100 p-6 "
          ++ (if bool_decide (mode w = Body) && isCameraOn w
              then "min-h-screen" else "min-h-[74.2vh]"))%string;
       card_class :=
         Some ("bg-white rounded-lg shadow-lg flex flex-col items-center transition-all duration-500 "
               ++ (if bool_decide (mode w = Body) && isCameraOn w
                   then "w-screen h-screen p-2" else "w-full max-w-lg p-6"))%string;
       video_class :=
         ("rounded-lg transition-all duration-500 ease-in-out "
          ++ (if isCameraOn w then "block" else "hidden") ++ " "
          ++ (if bool_decide (mode w = Body)
              then "w-[95vw] h-[80vh]" else "w-full h-[320px]"))%string;
       hand_button_class := handButtonClass (mode w);
       body_button_class := bodyButtonClass (mode w) |}.

(** X14.  Three alternatives written in the second layout are never taken,
    because that layout is only rendered when the first one is not: the
    root div never gets "min-h-screen", the card never gets
    "w-screen h-screen p-2", and the wide body-mode video is never shown
    there (it only ever comes with "hidden"). *)
Theorem card_layout_alternatives_are_dead (w : World) :
  outer_class (render_classes w)
    ≠ "flex flex-col items-center justify-center bg-gray-100 p-6 min-h-screen"
  ∧ card_class (render_classes w)
    ≠ Some "bg-white rounded-lg shadow-lg flex flex-col items-center transition-all duration-500 w-screen h-screen p-2"
  ∧ video_class (render_classes w)
    ≠ "rounded-lg transition-all duration-500 ease-in-out block w-[95vw] h-[80vh]".
Proof.
  unfold render_classes. destruct (mode w), (isCameraOn w); simpl; done.
Qed.

(** X15.  The controls agree with the state in every render: exactly one
    of the two mode buttons carries the active class, the one of the
    current mode; and the camera button reads "Close Camera" exactly when
    the camera is on, which is exactly when its click runs closeCamera. *)
Theorem controls_agree_with_state (w : World) :
  (hand_button_class (render_classes w)
     = (baseButtonClass ++ " " ++ activeButtonClass)%string ↔ mode w = Hand)
  ∧ (body_button_class (render_classes w)
     = (baseButtonClass ++ " " ++ activeButtonClass)%string ↔ mode w = Body)
  ∧ hand_button_class (render_classes w) ≠ body_button_class (render_classes w)
  ∧ (view_camera_label (render w) = "Close Camera" ↔ isCameraOn w = true)
  ∧ (view_camera_onClick (render w) = HCloseCamera ↔ isCameraOn w = true).
Proof.
  unfold render_classes, render. destruct (mode w), (isCameraOn w); simpl;
    repeat split; intros; done.
Qed.

Lemma handle_turns_camera_off w ev :
  (isCameraOn w = true → isCameraOn (handle w ev) = false →
   ev = ClickCamera ∨ ev = Unmount)
  ∧ (stopped (handle w ev) ≠ stopped w → ev = ClickCamera ∨ ev = Unmount).
Proof.
  destruct ev; auto; split; handle_cases; intros; congruence.
Qed.

(** X16.  Only the camera button and unmounting turn the camera off: a step
    after which isCameraOn has gone from true to false, or after which more
    tracks are stopped than before, is a click on the camera button or the
    unmount.  No failure, response, timer or mode switch does either. *)
Theorem only_close_or_unmount_turn_camera_off (w : World) (ev : Event) :
  (isCameraOn w = true ∧ isCameraOn (step w ev) = false)
  ∨ stopped (step w ev) ≠ stopped w →
  ev = ClickCamera ∨ ev = Unmount.
Proof.
  unfold step.
  destruct (commit_frame (handle w ev)) as (_ & -> & _ & _ & _ & _ & _ & _ & -> & _).
  destruct (handle_turns_camera_off w ev) as [Hoff Hstop].
  intros [[Hc Hf]|Hs]; auto.
Qed.

Lemma only_close_or_unmount_turn_camera_off_witness :
  ClickCamera = ClickCamera ∨ ClickCamera = Unmount.
Proof.
  apply (only_close_or_unmount_turn_camera_off camera_on ClickCamera).
  left. split; reflexivity.
Defined.
